(** * GameApi: a shallow embedding of the REST handlers, the JSON record
    store and the WebSocket registry, with the properties of the
    specification proved over it.

    Layout of the development:
    - JavaScript values and strings ([JsValue], [truthy], [typeof], [trim]);
    - the record store of [src/db/database.js] (users and games, whole
      collection read / modify / write);
    - the connection registry of [src/websocket.js] ([gameConnections],
      the connection handler, the close handler, [broadcastToGame]);
    - the routes of [src/routes/auth.js] and [src/routes/games.js] behind
      [apiKeyAuth];
    - the transition system of the server and its invariants;
    - the properties. *)

From Stdlib Require Import ZArith Ascii String.
From stdpp Require Import base option list gmap strings fin_maps.

Local Open Scope string_scope.
Local Open Scope list_scope.

(** ** JavaScript values *)

(** The values a parsed JSON body can hold, plus [undefined], which is what
    reading an absent property yields.  Numbers are kept as integers: the
    handlers only ever ask whether a number is zero and what its [typeof]
    is. *)
#[local] Set Warnings "-register-all".
Inductive JsValue : Type :=
| JUndefined
| JNull
| JBool (b : bool)
| JNum (z : Z)
| JStr (s : string)
| JArr (items : list JsValue)
| JObj (fields : list (string * JsValue)).

(** [!v] is [negb (truthy v)]. *)
Definition truthy (v : JsValue) : bool :=
  match v with
  | JUndefined | JNull => false
  | JBool b => b
  | JNum z => negb (z =? 0)%Z
  | JStr s => negb (s =? "")
  | JArr _ | JObj _ => true
  end.

Definition typeof (v : JsValue) : string :=
  match v with
  | JUndefined => "undefined"
  | JNull => "object"
  | JBool _ => "boolean"
  | JNum _ => "number"
  | JStr _ => "string"
  | JArr _ | JObj _ => "object"
  end.

Fixpoint assoc (k : string) (fields : list (string * JsValue)) : JsValue :=
  match fields with
  | [] => JUndefined
  | (k', v) :: rest => if k' =? k then v else assoc k rest
  end.

(** [const { k } = body]: destructuring [null] or [undefined] raises a
    TypeError ([None]); an object yields its property, anything else has no
    such property. *)
Definition destructure (body : JsValue) (k : string) : option JsValue :=
  match body with
  | JUndefined | JNull => None
  | JObj fields => Some (assoc k fields)
  | _ => Some JUndefined
  end.

(** A value that may be [null] or a string, such as a header or a query
    parameter: [!x] holds for [null] and for the empty string. *)
Definition present (x : option string) : bool :=
  match x with
  | None => false
  | Some s => negb (s =? "")
  end.

(** ** [String.prototype.trim] *)

(** White space and line terminators among the code units below 256. *)
Definition isWhiteSpace (c : ascii) : bool :=
  match nat_of_ascii c with
  | 9 | 10 | 11 | 12 | 13 | 32 | 160 => true
  | _ => false
  end.

Fixpoint trimStart (s : string) : string :=
  match s with
  | EmptyString => EmptyString
  | String c rest => if isWhiteSpace c then trimStart rest else s
  end.

Fixpoint trimEnd (s : string) : string :=
  match s with
  | EmptyString => EmptyString
  | String c rest =>
      match trimEnd rest with
      | EmptyString => if isWhiteSpace c then EmptyString else String c EmptyString
      | kept => String c kept
      end
  end.

Definition trim (s : string) : string := trimEnd (trimStart s).

(** [s.replace(/-/g, '')] *)
Fixpoint removeDashes (s : string) : string :=
  match s with
  | EmptyString => EmptyString
  | String c rest =>
      if Ascii.eqb c "-"%char then removeDashes rest else String c (removeDashes rest)
  end.

(** ** Records of the store *)

Record User : Type := mkUser {
  user_id : string;
  username : string;
  apiKey : string;
  user_createdAt : string
}.

Record Player : Type := mkPlayer {
  player_id : string;
  player_name : string;
  joinedAt : string
}.

Record Move : Type := mkMove {
  move_id : string;
  playerId : string;
  data : JsValue;
  timestamp : string
}.

(** [name] and [status] are strings when the game is created, and whatever
    truthy value a later PUT supplies. *)
Record Game : Type := mkGame {
  game_id : string;
  name : JsValue;
  ownerId : string;
  players : list Player;
  moves : list Move;
  status : JsValue;
  createdAt : string;
  updatedAt : string
}.

(** What one request draws from [uuidv4()] and from
    [new Date().toISOString()], in call order.  [registerUser] is the only
    operation that draws three identifiers. *)
Record Draws : Type := mkDraws {
  uuid1 : string;
  uuid2 : string;
  uuid3 : string;
  now1 : string;
  now2 : string
}.

(** ** Array helpers *)

(** [l.findIndex(p)], with [None] for [-1]. *)
Fixpoint findIndex {A} (p : A -> bool) (l : list A) : option nat :=
  match l with
  | [] => None
  | x :: rest => if p x then Some 0 else S <$> findIndex p rest
  end.

(** [const x = l.find(p); mutate x in place]: the first match is replaced
    by its mutated version, the rest of the array is kept. *)
Fixpoint modifyFirst {A} (p : A -> bool) (f : A -> A) (l : list A) : list A :=
  match l with
  | [] => []
  | x :: rest => if p x then f x :: rest else x :: modifyFirst p f rest
  end.

(** [l.splice(i, 1)] *)
Definition splice1 {A} (i : nat) (l : list A) : list A := delete i l.

(** ** The record store ([src/db/database.js])

    Every operation reads a whole collection, changes it in memory and
    writes it back; here it takes the collection read and returns, next to
    its result, the collection left in the file. *)

Inductive Result (A : Type) : Type :=
| Ok (a : A)
| Throw (message : string).
Arguments Ok {A} a.
Arguments Throw {A} message.

Definition registerUser (d : Draws) (uname : string) (users : list User)
  : Result (User * list User) :=
  match List.find (fun u => username u =? uname) users with
  | Some _ => Throw "User already exists"
  | None =>
      let key := uuid1 d +:+ removeDashes (uuid2 d) in
      let newUser := mkUser (uuid3 d) uname key (now1 d) in
      Ok (newUser, users ++ [newUser])
  end.

Definition getUserByApiKey (key : string) (users : list User) : option User :=
  List.find (fun u => apiKey u =? key) users.

Definition getUserById (uid : string) (users : list User) : option User :=
  List.find (fun u => user_id u =? uid) users.

Definition createGame (d : Draws) (uid gameName : string) (games : list Game)
  : Game * list Game :=
  let newGame :=
    mkGame (uuid1 d) (JStr gameName) uid [] [] (JStr "active") (now1 d) (now2 d) in
  (newGame, games ++ [newGame]).

Definition getGamesByUserId (uid : string) (games : list Game) : list Game :=
  List.filter (fun g => ownerId g =? uid) games.

Definition hasId (gameId : string) (g : Game) : bool := game_id g =? gameId.

Definition getGameById (gameId : string) (games : list Game) : option Game :=
  List.find (hasId gameId) games.

(** The [updates] object as the PUT route builds it: it has a [name] key, a
    [status] key, both or neither, and no other key. *)
Record Updates : Type := mkUpdates {
  upd_name : option JsValue;
  upd_status : option JsValue
}.

(** [Object.assign(game, updates, { updatedAt: now })] *)
Definition assign (g : Game) (updates : Updates) (now : string) : Game :=
  mkGame (game_id g) (default (name g) (upd_name updates)) (ownerId g)
         (players g) (moves g) (default (status g) (upd_status updates))
         (createdAt g) now.

Definition updateGame (d : Draws) (gameId : string) (updates : Updates)
    (games : list Game) : option Game * list Game :=
  match List.find (hasId gameId) games with
  | None => (None, games)
  | Some game =>
      (Some (assign game updates (now1 d)),
       modifyFirst (hasId gameId) (fun g => assign g updates (now1 d)) games)
  end.

Definition deleteGame (gameId : string) (games : list Game) : bool * list Game :=
  match findIndex (hasId gameId) games with
  | None => (false, games)
  | Some index => (true, splice1 index games)
  end.

(** [game.players.push(p); game.updatedAt = now] *)
Definition pushPlayer (p : Player) (now : string) (g : Game) : Game :=
  mkGame (game_id g) (name g) (ownerId g) (players g ++ [p]) (moves g)
         (status g) (createdAt g) now.

Definition addPlayerToGame (d : Draws) (gameId playerName : string)
    (games : list Game) : option Player * list Game :=
  match List.find (hasId gameId) games with
  | None => (None, games)
  | Some _ =>
      let newPlayer := mkPlayer (uuid1 d) playerName (now1 d) in
      (Some newPlayer, modifyFirst (hasId gameId) (pushPlayer newPlayer (now2 d)) games)
  end.

(** [game.players.splice(index, 1); game.updatedAt = now] *)
Definition splicePlayer (index : nat) (now : string) (g : Game) : Game :=
  mkGame (game_id g) (name g) (ownerId g) (splice1 index (players g)) (moves g)
         (status g) (createdAt g) now.

Definition removePlayerFromGame (d : Draws) (gameId pid : string)
    (games : list Game) : bool * list Game :=
  match List.find (hasId gameId) games with
  | None => (false, games)
  | Some game =>
      match findIndex (fun p => player_id p =? pid) (players game) with
      | None => (false, games)
      | Some index =>
          (true, modifyFirst (hasId gameId) (splicePlayer index (now1 d)) games)
      end
  end.

Definition getGamePlayers (gameId : string) (games : list Game) : list Player :=
  match getGameById gameId games with
  | Some game => players game
  | None => []
  end.

(** [game.moves.push(m); game.updatedAt = now] *)
Definition pushMove (m : Move) (now : string) (g : Game) : Game :=
  mkGame (game_id g) (name g) (ownerId g) (players g) (moves g ++ [m])
         (status g) (createdAt g) now.

Definition addMoveToGame (d : Draws) (gameId pid : string) (moveData : JsValue)
    (games : list Game) : option Move * list Game :=
  match List.find (hasId gameId) games with
  | None => (None, games)
  | Some _ =>
      let newMove := mkMove (uuid1 d) pid moveData (now1 d) in
      (Some newMove, modifyFirst (hasId gameId) (pushMove newMove (now2 d)) games)
  end.

Definition getGameMoves (gameId : string) (games : list Game) : list Move :=
  match getGameById gameId games with
  | Some game => moves game
  | None => []
  end.

(** ** The connection registry ([src/websocket.js]) *)

(** The frames the server sends.  A [player] or [move] that the store
    returned as [null] is sent as [null]. *)
Inductive Event : Type :=
| EvConnected (gameName : JsValue) (gameId uname : string)
| EvMove (gameId : string) (move : option Move) (playerName : string)
| EvPlayerJoined (gameId : string) (player : option Player)
| EvPlayerRemoved (gameId pid : string)
| EvPlayerDisconnected (uname : string).

(** [ws.readyState] *)
Definition CONNECTING : nat := 0.
Definition OPEN : nat := 1.
Definition CLOSING : nat := 2.
Definition CLOSED : nat := 3.

(** A socket handle: its ready state, the code the server closed it with,
    the frames sent on it in order, and the variables captured by the
    [close] listener when the handler registered one. *)
Record Socket : Type := mkSocket {
  readyState : nat;
  closeCode : option nat;
  sent : list Event;
  onClose : option (string * User)
}.

(** An entry of [gameConnections]; [ws] is the index of the socket. *)
Record Conn : Type := mkConn {
  ws : nat;
  userId : string;
  conn_username : string
}.

Record State : Type := mkState {
  users : list User;
  games : list Game;
  gameConnections : gmap string (list Conn);
  sockets : list Socket
}.

Definition init : State := mkState [] [] ∅ [].

Definition send (message : Event) (sk : Socket) : Socket :=
  mkSocket (readyState sk) (closeCode sk) (sent sk ++ [message]) (onClose sk).

Definition isOpen (socks : list Socket) (w : nat) : bool :=
  match socks !! w with
  | Some sk => (readyState sk =? OPEN)%nat
  | None => false
  end.

(** The body of the [forEach] in [broadcastToGame]:
    [if (ws.readyState === 1) ws.send(messageStr)]. *)
Definition deliver (message : Event) (socks : list Socket) (c : Conn) : list Socket :=
  if isOpen socks (ws c) then alter (send message) (ws c) socks else socks.

Definition broadcastToGame (gameId : string) (message : Event)
    (conns : gmap string (list Conn)) (socks : list Socket) : list Socket :=
  match conns !! gameId with
  | None => socks
  | Some connections => foldl (deliver message) socks connections
  end.

(** [ws.close(code, reason)] on the socket just accepted, before any
    listener is registered. *)
Definition reject (code : nat) (s : State) : State :=
  mkState (users s) (games s) (gameConnections s)
          (sockets s ++ [mkSocket CLOSING (Some code) [] None]).

(** The [connection] listener, run on a new socket with the [apiKey] and
    [gameId] query parameters of its URL ([null] when absent). *)
Definition onConnection (apiKeyParam gameIdParam : option string) (s : State) : State :=
  if negb (present apiKeyParam) || negb (present gameIdParam) then reject 4000 s
  else
    let key := default "" apiKeyParam in
    let gameId := default "" gameIdParam in
    match getUserByApiKey key (users s) with
    | None => reject 4001 s
    | Some user =>
        match getGameById gameId (games s) with
        | None => reject 4002 s
        | Some game =>
            let isPlayer := existsb (fun p => player_id p =? user_id user) (players game) in
            let isOwner := ownerId game =? user_id user in
            if negb isPlayer && negb isOwner then reject 4003 s
            else
              let w := length (sockets s) in
              let connections := default [] (gameConnections s !! gameId) in
              let entry := mkConn w (user_id user) (username user) in
              mkState (users s) (games s)
                (<[gameId := connections ++ [entry]]> (gameConnections s))
                (sockets s ++
                   [mkSocket OPEN None [EvConnected (name game) gameId (username user)]
                             (Some (gameId, user))])
        end
    end.

(** The transport starts closing socket [w] (a close frame was received or
    sent): the socket leaves [OPEN] before its [close] event is emitted. *)
Definition startClosing (w : nat) (s : State) : State :=
  if isOpen (sockets s) w then
    mkState (users s) (games s) (gameConnections s)
      (alter (fun sk => mkSocket CLOSING (closeCode sk) (sent sk) (onClose sk)) w (sockets s))
  else s.

(** The [close] event of socket [w]: the socket is [CLOSED], then the
    listener registered by [onConnection], if any, runs. *)
Definition onCloseEvent (w : nat) (s : State) : State :=
  match sockets s !! w with
  | None => s
  | Some sk =>
      let socks := <[w := mkSocket CLOSED (closeCode sk) (sent sk) (onClose sk)]> (sockets s) in
      match onClose sk with
      | None => mkState (users s) (games s) (gameConnections s) socks
      | Some (gameId, user) =>
          let conns :=
            match gameConnections s !! gameId with
            | None => gameConnections s
            | Some connections =>
                match findIndex (fun c => (ws c =? w)%nat) connections with
                | None => gameConnections s
                | Some index => <[gameId := splice1 index connections]> (gameConnections s)
                end
            end in
          mkState (users s) (games s) conns
            (broadcastToGame gameId (EvPlayerDisconnected (username user)) conns socks)
      end
  end.

(** ** The routes ([src/routes/auth.js], [src/routes/games.js]) *)

Inductive Payload : Type :=
| PError (error : string)
| PUserRegistered (user : User)
| PGameCreated (game : Game)
| PGames (count : nat) (gs : list Game)
| PGame (game : Game)
| PGameUpdated (game : option Game)
| PMessage (message : string)
| PPlayerAdded (player : option Player)
| PPlayers (gameId : string) (count : nat) (ps : list Player)
| PMoveAdded (move : option Move)
| PMoves (gameId : string) (count : nat) (ms : list Move)
| PMove (move : Move).

Record Response : Type := mkResponse {
  statusCode : nat;
  payload : Payload
}.

(** The message of the TypeError raised by destructuring a body that is
    [null] or [undefined]; its text is the engine's. *)
Definition typeErrorMessage : string := "Cannot destructure property of req.body".

Definition withUsers (s : State) (us : list User) : State :=
  mkState us (games s) (gameConnections s) (sockets s).

Definition withGames (s : State) (gs : list Game) : State :=
  mkState (users s) gs (gameConnections s) (sockets s).

Definition withSockets (s : State) (socks : list Socket) : State :=
  mkState (users s) (games s) (gameConnections s) socks.

(** [!v || typeof v !== 'string' || v.trim().length === 0]; the last
    disjunct is only evaluated on a string. *)
Definition invalidName (v : JsValue) : bool :=
  negb (truthy v) || negb (typeof v =? "string") ||
  match v with
  | JStr str => (String.length (trim str) =? 0)%nat
  | _ => true
  end.

(** The string held by a value whose [typeof] was checked to be
    ['string']. *)
Definition asString (v : JsValue) : string :=
  match v with
  | JStr str => str
  | _ => ""
  end.

(** [v.trim()] for a value that passed [invalidName]. *)
Definition trimmed (v : JsValue) : string := trim (asString v).

(** POST /auth/register *)
Definition postRegister (body : JsValue) (d : Draws) (s : State) : Response * State :=
  match destructure body "username" with
  | None => (mkResponse 400 (PError typeErrorMessage), s)
  | Some uname =>
      if invalidName uname then (mkResponse 400 (PError "Invalid username"), s)
      else
        match registerUser d (trimmed uname) (users s) with
        | Throw message => (mkResponse 400 (PError message), s)
        | Ok (user, written) => (mkResponse 201 (PUserRegistered user), withUsers s written)
        end
  end.

(** The [apiKeyAuth] middleware in front of a handler [next]. *)
Definition apiKeyAuth (header : option string) (s : State)
    (next : User -> Response * State) : Response * State :=
  if negb (present header) then (mkResponse 401 (PError "API key missing"), s)
  else
    match getUserByApiKey (default "" header) (users s) with
    | None => (mkResponse 401 (PError "Invalid API key"), s)
    | Some user => next user
    end.

(** POST /games *)
Definition postGames (user : User) (body : JsValue) (d : Draws) (s : State)
  : Response * State :=
  match destructure body "name" with
  | None => (mkResponse 400 (PError typeErrorMessage), s)
  | Some nm =>
      if invalidName nm then (mkResponse 400 (PError "Invalid game name"), s)
      else
        let '(game, written) := createGame d (user_id user) (trimmed nm) (games s) in
        (mkResponse 201 (PGameCreated game), withGames s written)
  end.

(** GET /games *)
Definition getGames (user : User) (s : State) : Response * State :=
  let gs := getGamesByUserId (user_id user) (games s) in
  (mkResponse 200 (PGames (length gs) gs), s).

(** GET /games/:gameId *)
Definition getGame (user : User) (gameId : string) (s : State) : Response * State :=
  match getGameById gameId (games s) with
  | None => (mkResponse 404 (PError "Game not found"), s)
  | Some game =>
      if negb (ownerId game =? user_id user)
      then (mkResponse 403 (PError "Access denied"), s)
      else (mkResponse 200 (PGame game), s)
  end.

(** PUT /games/:gameId *)
Definition putGame (user : User) (gameId : string) (body : JsValue) (d : Draws)
    (s : State) : Response * State :=
  match getGameById gameId (games s) with
  | None => (mkResponse 404 (PError "Game not found"), s)
  | Some game =>
      if negb (ownerId game =? user_id user)
      then (mkResponse 403 (PError "Access denied"), s)
      else
        match destructure body "name", destructure body "status" with
        | Some nm, Some st =>
            let updates :=
              mkUpdates (if truthy nm then Some nm else None)
                        (if truthy st then Some st else None) in
            let '(updatedGame, written) := updateGame d gameId updates (games s) in
            (mkResponse 200 (PGameUpdated updatedGame), withGames s written)
        | _, _ => (mkResponse 400 (PError typeErrorMessage), s)
        end
  end.

(** DELETE /games/:gameId *)
Definition deleteGameRoute (user : User) (gameId : string) (s : State)
  : Response * State :=
  match getGameById gameId (games s) with
  | None => (mkResponse 404 (PError "Game not found"), s)
  | Some game =>
      if negb (ownerId game =? user_id user)
      then (mkResponse 403 (PError "Access denied"), s)
      else
        let '(_, written) := deleteGame gameId (games s) in
        (mkResponse 200 (PMessage "Game deleted successfully"), withGames s written)
  end.

(** POST /games/:gameId/players *)
Definition postPlayers (user : User) (gameId : string) (body : JsValue) (d : Draws)
    (s : State) : Response * State :=
  match getGameById gameId (games s) with
  | None => (mkResponse 404 (PError "Game not found"), s)
  | Some game =>
      if negb (ownerId game =? user_id user)
      then (mkResponse 403 (PError "Access denied"), s)
      else
        match destructure body "name" with
        | None => (mkResponse 400 (PError typeErrorMessage), s)
        | Some nm =>
            if invalidName nm then (mkResponse 400 (PError "Invalid player name"), s)
            else
              let '(player, written) := addPlayerToGame d gameId (trimmed nm) (games s) in
              let socks :=
                broadcastToGame gameId (EvPlayerJoined gameId player)
                                (gameConnections s) (sockets s) in
              (mkResponse 201 (PPlayerAdded player),
               withSockets (withGames s written) socks)
        end
  end.

(** GET /games/:gameId/players *)
Definition getPlayers (user : User) (gameId : string) (s : State) : Response * State :=
  match getGameById gameId (games s) with
  | None => (mkResponse 404 (PError "Game not found"), s)
  | Some game =>
      if negb (ownerId game =? user_id user)
      then (mkResponse 403 (PError "Access denied"), s)
      else
        let ps := getGamePlayers gameId (games s) in
        (mkResponse 200 (PPlayers gameId (length ps) ps), s)
  end.

(** DELETE /games/:gameId/players/:playerId *)
Definition deletePlayer (user : User) (gameId pid : string) (d : Draws) (s : State)
  : Response * State :=
  match getGameById gameId (games s) with
  | None => (mkResponse 404 (PError "Game not found"), s)
  | Some game =>
      if negb (ownerId game =? user_id user)
      then (mkResponse 403 (PError "Access denied"), s)
      else
        let '(result, written) := removePlayerFromGame d gameId pid (games s) in
        if negb result then (mkResponse 404 (PError "Player not found"), withGames s written)
        else
          let socks :=
            broadcastToGame gameId (EvPlayerRemoved gameId pid)
                            (gameConnections s) (sockets s) in
          (mkResponse 200 (PMessage "Player removed successfully"),
           withSockets (withGames s written) socks)
  end.

(** The guard of the two move routes that admit players:
    [currentUserIsPlayer] and [currentUserIsOwner]. *)
Definition currentUserIsPlayer (game : Game) (user : User) : bool :=
  existsb (fun p => player_id p =? user_id user) (players game).

Definition currentUserIsOwner (game : Game) (user : User) : bool :=
  ownerId game =? user_id user.

(** POST /games/:gameId/moves *)
Definition postMoves (user : User) (gameId : string) (body : JsValue) (d : Draws)
    (s : State) : Response * State :=
  match getGameById gameId (games s) with
  | None => (mkResponse 404 (PError "Game not found"), s)
  | Some game =>
      if negb (currentUserIsPlayer game user) && negb (currentUserIsOwner game user)
      then (mkResponse 403
              (PError "Access denied: Only players and the game owner can post moves"), s)
      else
        match destructure body "playerId", destructure body "data" with
        | Some pid, Some dat =>
            if negb (truthy pid) || negb (typeof pid =? "string")
            then (mkResponse 400 (PError "Invalid playerId"), s)
            else if negb (truthy dat) || negb (typeof dat =? "object")
            then (mkResponse 400 (PError "Invalid move data (must be JSON object)"), s)
            else
              match List.find (fun p => player_id p =? asString pid) (players game) with
              | None => (mkResponse 404 (PError "Player not found in this game"), s)
              | Some player =>
                  let '(move, written) :=
                    addMoveToGame d gameId (asString pid) dat (games s) in
                  let socks :=
                    broadcastToGame gameId (EvMove gameId move (player_name player))
                                    (gameConnections s) (sockets s) in
                  (mkResponse 201 (PMoveAdded move),
                   withSockets (withGames s written) socks)
              end
        | _, _ => (mkResponse 400 (PError typeErrorMessage), s)
        end
  end.

(** GET /games/:gameId/moves *)
Definition getMoves (user : User) (gameId : string) (s : State) : Response * State :=
  match getGameById gameId (games s) with
  | None => (mkResponse 404 (PError "Game not found"), s)
  | Some game =>
      if negb (currentUserIsPlayer game user) && negb (currentUserIsOwner game user)
      then (mkResponse 403
              (PError "Access denied: Only players and the game owner can view moves"), s)
      else
        let ms := getGameMoves gameId (games s) in
        (mkResponse 200 (PMoves gameId (length ms) ms), s)
  end.

(** GET /games/:gameId/moves/:moveId *)
Definition getMove (user : User) (gameId moveId : string) (s : State)
  : Response * State :=
  match getGameById gameId (games s) with
  | None => (mkResponse 404 (PError "Game not found"), s)
  | Some game =>
      if negb (ownerId game =? user_id user)
      then (mkResponse 403 (PError "Access denied"), s)
      else
        match List.find (fun m => move_id m =? moveId) (moves game) with
        | None => (mkResponse 404 (PError "Move not found"), s)
        | Some move => (mkResponse 200 (PMove move), s)
        end
  end.

(** The requests the application routes, with their path parameters and
    parsed body. *)
Inductive Request : Type :=
| PostRegister (body : JsValue)
| PostGames (body : JsValue)
| GetGames
| GetGame (gameId : string)
| PutGame (gameId : string) (body : JsValue)
| DeleteGame (gameId : string)
| PostPlayers (gameId : string) (body : JsValue)
| GetPlayers (gameId : string)
| DeletePlayer (gameId pid : string)
| PostMoves (gameId : string) (body : JsValue)
| GetMoves (gameId : string)
| GetMove (gameId moveId : string).

(** The router mounted at [/games], behind [apiKeyAuth]. *)
Definition gameRoutes (user : User) (req : Request) (d : Draws) (s : State)
  : Response * State :=
  match req with
  | PostRegister _ => (mkResponse 404 (PError "Route not found"), s)
  | PostGames body => postGames user body d s
  | GetGames => getGames user s
  | GetGame gameId => getGame user gameId s
  | PutGame gameId body => putGame user gameId body d s
  | DeleteGame gameId => deleteGameRoute user gameId s
  | PostPlayers gameId body => postPlayers user gameId body d s
  | GetPlayers gameId => getPlayers user gameId s
  | DeletePlayer gameId pid => deletePlayer user gameId pid d s
  | PostMoves gameId body => postMoves user gameId body d s
  | GetMoves gameId => getMoves user gameId s
  | GetMove gameId moveId => getMove user gameId moveId s
  end.

(** The application of [src/index.js]: [/auth] is public, [/games] is
    behind the [X-API-Key] header. *)
Definition app (header : option string) (req : Request) (d : Draws) (s : State)
  : Response * State :=
  match req with
  | PostRegister body => postRegister body d s
  | _ => apiKeyAuth header s (fun user => gameRoutes user req d s)
  end.

(** ** The server as a transition system *)

Inductive Action : Type :=
| Http (header : option string) (req : Request) (d : Draws)
| Connect (apiKeyParam gameIdParam : option string)
| StartClosing (w : nat)
| CloseEvent (w : nat).

Definition next (s : State) (a : Action) : State :=
  match a with
  | Http header req d => (app header req d s).2
  | Connect apiKeyParam gameIdParam => onConnection apiKeyParam gameIdParam s
  | StartClosing w => startClosing w s
  | CloseEvent w => onCloseEvent w s
  end.

(** The identifiers held by the store. *)
Definition gameIds (g : Game) : list string :=
  game_id g :: map player_id (players g) ++ map move_id (moves g).

Definition allIds (s : State) : list string :=
  map user_id (users s) ++ concat (map gameIds (games s)).

Definition elemb (x : string) (l : list string) : bool := existsb (String.eqb x) l.

(** [uuidv4] returns identifiers that are new: the draws of a request are
    absent from the store and differ from each other. *)
Definition fresh (s : State) (d : Draws) : bool :=
  negb (elemb (uuid1 d) (allIds s)) && negb (elemb (uuid2 d) (allIds s)) &&
  negb (elemb (uuid3 d) (allIds s)) &&
  negb (uuid1 d =? uuid2 d) && negb (uuid1 d =? uuid3 d) && negb (uuid2 d =? uuid3 d).

(** What the environment can do: any request, with fresh draws; any
    connection attempt; start closing an open socket; emit the [close]
    event of a socket, once. *)
Definition admissible (s : State) (a : Action) : bool :=
  match a with
  | Http _ _ d => fresh s d
  | Connect _ _ => true
  | StartClosing w => isOpen (sockets s) w
  | CloseEvent w =>
      match sockets s !! w with
      | Some sk => negb (readyState sk =? CLOSED)%nat
      | None => false
      end
  end.

Definition run (s : State) (actions : list Action) : State := foldl next s actions.

Fixpoint admissibleRun (s : State) (actions : list Action) : bool :=
  match actions with
  | [] => true
  | a :: rest => admissible s a && admissibleRun (next s a) rest
  end.

Inductive reachable : State -> Prop :=
| reachable_init : reachable init
| reachable_next s a : reachable s -> admissible s a = true -> reachable (next s a).

(** ** Observations on a state *)

(** The frames sent so far on socket [w]. *)
Definition sentOn (s : State) (w : nat) : list Event :=
  match sockets s !! w with
  | Some sk => sent sk
  | None => []
  end.

(** The sockets registered for a game, in registration order. *)
Definition registeredFor (s : State) (gameId : string) : list nat :=
  ws <$> default [] (gameConnections s !! gameId).

(** How often [connections] lists socket [w]. *)
Definition occurrences (w : nat) (connections : list Conn) : nat :=
  length (List.filter (fun c => (ws c =? w)%nat) connections).

(** What a socket looks like after [n] more frames [message]. *)
Definition after (n : nat) (message : Event) (sk : Socket) : Socket :=
  mkSocket (readyState sk) (closeCode sk) (sent sk ++ replicate n message) (onClose sk).

(** Socket [sk'] is a later state of a socket [sk] that was not open:
    nothing was sent on it, its listener and close code are the same, it
    did not reopen, and if it was closed it still is. *)
Definition frozen (sk sk' : Socket) : Prop :=
  sent sk' = sent sk /\ onClose sk' = onClose sk /\ closeCode sk' = closeCode sk /\
  readyState sk' <> OPEN /\ (readyState sk = CLOSED -> readyState sk' = CLOSED).

(** The handshake on the socket about to be accepted was refused with
    [code]: the socket is closing with that code, nothing was sent on it,
    it has no [close] listener, and the registry is as it was. *)
Definition refusedWith (code : nat) (s s' : State) : Prop :=
  sockets s' !! length (sockets s) = Some (mkSocket CLOSING (Some code) [] None) /\
  gameConnections s' = gameConnections s.

(** ** What a step does to the store *)

(** The in-place changes the operations make to one game. *)
Inductive gameEdit (d : Draws) : (Game -> Game) -> Prop :=
| edit_assign updates : gameEdit d (fun g => assign g updates (now1 d))
| edit_pushPlayer nm :
    gameEdit d (pushPlayer (mkPlayer (uuid1 d) nm (now1 d)) (now2 d))
| edit_splicePlayer index : gameEdit d (splicePlayer index (now1 d))
| edit_pushMove pid dat :
    gameEdit d (pushMove (mkMove (uuid1 d) pid dat (now1 d)) (now2 d)).

(** The ways a step changes the two collections: not at all; one user
    appended; one game appended; the first game with a given identifier
    edited in place; one game removed. *)
Inductive storeEffect (d : Draws) (s s' : State) : Prop :=
| effect_none : users s' = users s -> games s' = games s -> storeEffect d s s'
| effect_user nm :
    invalidName nm = false ->
    users s' = users s ++
      [mkUser (uuid3 d) (trimmed nm) (uuid1 d +:+ removeDashes (uuid2 d)) (now1 d)] ->
    games s' = games s -> storeEffect d s s'
| effect_game uid nm :
    users s' = users s ->
    games s' = games s ++
      [mkGame (uuid1 d) (JStr nm) uid [] [] (JStr "active") (now1 d) (now2 d)] ->
    storeEffect d s s'
| effect_edit gameId f :
    gameEdit d f -> users s' = users s ->
    games s' = modifyFirst (hasId gameId) f (games s) -> storeEffect d s s'
| effect_delete index :
    users s' = users s -> games s' = splice1 index (games s) -> storeEffect d s s'.

(** ** Sequences of move submissions *)

(** One POST /games/:gameId/moves: the [X-API-Key] header, the body and
    the draws of the request. *)
Definition Submission : Type := option string * JsValue * Draws.

Definition submitAction (gameId : string) (sub : Submission) : Action :=
  let '(header, body, d) := sub in Http header (PostMoves gameId body) d.

Definition submitResponse (gameId : string) (sub : Submission) (s : State) : Response :=
  let '(header, body, d) := sub in (app header (PostMoves gameId body) d s).1.

(** The responses to the submissions, made one after the other. *)
Fixpoint submitAll (gameId : string) (subs : list Submission) (s : State)
  : list Response :=
  match subs with
  | [] => []
  | sub :: rest =>
      submitResponse gameId sub s :: submitAll gameId rest (next s (submitAction gameId sub))
  end.

(** The move a submission asks to record. *)
Definition moveOf (sub : Submission) : Move :=
  let '(_, body, d) := sub in
  mkMove (uuid1 d) (asString (default JUndefined (destructure body "playerId")))
         (default JUndefined (destructure body "data")) (now1 d).

(** ** Shapes of a move submission *)

(** A value that passes [!data || typeof data !== 'object']: an object or
    an array. *)
Definition isObject (v : JsValue) : Prop :=
  match v with
  | JObj _ | JArr _ => True
  | _ => False
  end.

(** The body holds a non-empty string [pid] under [playerId] and an object
    or array [dat] under [data]. *)
Definition wellFormedMove (body : JsValue) (pid : string) (dat : JsValue) : Prop :=
  destructure body "playerId" = Some (JStr pid) /\ pid <> "" /\
  destructure body "data" = Some dat /\ isObject dat.

(** What no edit of a game changes: [g'] has the identifier, the owner and
    the creation time of [g], and the moves of [g] are the first moves of
    [g'], unaltered and in place. *)
Definition sameIdentity (g g' : Game) : Prop :=
  game_id g' = game_id g /\ ownerId g' = ownerId g /\ createdAt g' = createdAt g /\
  moves g `prefix_of` moves g'.

(** ** Invariants of the reachable states *)

(** A registry entry under [gameId] points to a socket that has not been
    closed and whose [close] listener captured this game and the user the
    entry names. *)
Definition entryOk (s : State) (gameId : string) (c : Conn) : Prop :=
  exists sk u,
    sockets s !! ws c = Some sk /\ readyState sk <> CLOSED /\
    onClose sk = Some (gameId, u) /\
    conn_username c = username u /\ userId c = user_id u.

(** Each list of the registry names a socket at most once, and its entries
    are sound. *)
Definition registryOk (s : State) : Prop :=
  forall gameId l,
    gameConnections s !! gameId = Some l ->
    NoDup (map ws l) /\ forall c, c ∈ l -> entryOk s gameId c.

(** The moves of a game have distinct identifiers, and no player of the
    game has the identifier of a user. *)
Definition gameOk (us : list User) (g : Game) : Prop :=
  NoDup (map move_id (moves g)) /\
  forall p, p ∈ players g -> player_id p ∉ map user_id us.

(** A stored username is what [trim] returned on a non-blank string. *)
Definition userOk (u : User) : Prop :=
  trim (username u) = username u /\ username u <> "".

(** Every game and every user of the store is sound, and no two games
    have the same identifier. *)
Definition storeOk (s : State) : Prop :=
  Forall (gameOk (users s)) (games s) /\ Forall userOk (users s) /\
  NoDup (map game_id (games s)).

(** ** A sample session

    Alice and Bob register; Alice creates game [g1] and adds player [p1];
    Alice opens two sockets on [g1]. *)

Definition draws (a b c t : string) : Draws := mkDraws a b c t t.

Definition field (k : string) (v : JsValue) : JsValue := JObj [(k, v)].

Definition aliceKey : string := "k1k2".
Definition bobKey : string := "k3k4".

Definition alice : User := mkUser "u-alice" "alice" aliceKey "t0".
Definition bob : User := mkUser "u-bob" "bob" bobKey "t1".

Definition session : list Action :=
  [ Http None (PostRegister (field "username" (JStr " alice "))) (draws "k1" "k-2" "u-alice" "t0");
    Http None (PostRegister (field "username" (JStr "bob"))) (draws "k3" "k-4" "u-bob" "t1");
    Http (Some aliceKey) (PostGames (field "name" (JStr "G"))) (draws "g1" "x1" "y1" "t2");
    Http (Some aliceKey) (PostPlayers "g1" (field "name" (JStr "P"))) (draws "p1" "x2" "y2" "t3");
    Connect (Some aliceKey) (Some "g1");
    Connect (Some aliceKey) (Some "g1") ].

Definition sample : State := run init session.

(** The game [g1] as the sample session leaves it. *)
Definition sampleGame : Game :=
  mkGame "g1" (JStr "G") "u-alice" [mkPlayer "p1" "P" "t3"] [] (JStr "active") "t2" "t3".

Definition moveBody (pid : string) : JsValue :=
  JObj [("playerId", JStr pid); ("data", JObj [("x", JNum 1)])].

(** ** Kinds of request *)

(** The requests that only read: the GET routes. *)
Definition readOnly (req : Request) : bool :=
  match req with
  | GetGames | GetGame _ | GetPlayers _ | GetMoves _ | GetMove _ _ => true
  | _ => false
  end.

(** The requests served by the router behind [apiKeyAuth]. *)
Definition protected (req : Request) : bool :=
  match req with
  | PostRegister _ => false
  | _ => true
  end.

(** The game a request names in its path, if any. *)
Definition gameOf (req : Request) : option string :=
  match req with
  | PostRegister _ | PostGames _ | GetGames => None
  | GetGame g | PutGame g _ | DeleteGame g | PostPlayers g _ | GetPlayers g
  | DeletePlayer g _ | PostMoves g _ | GetMoves g | GetMove g _ => Some g
  end.

(** The routes guarded by [game.ownerId !== req.user.id]: every route on a
    game except the two move routes that also admit players. *)
Definition ownerOnly (req : Request) : bool :=
  match req with
  | GetGame _ | PutGame _ _ | DeleteGame _ | PostPlayers _ _ | GetPlayers _
  | DeletePlayer _ _ | GetMove _ _ => true
  | _ => false
  end.

(** The routes that broadcast, and the event each one sends. *)
Definition broadcasts (req : Request) : bool :=
  match req with
  | PostPlayers _ _ | DeletePlayer _ _ | PostMoves _ _ => true
  | _ => false
  end.

Definition eventOf (req : Request) (ev : Event) : Prop :=
  match req, ev with
  | PostPlayers gameId _, EvPlayerJoined gameId' _ => gameId' = gameId
  | DeletePlayer gameId pid, EvPlayerRemoved gameId' pid' => gameId' = gameId /\ pid' = pid
  | PostMoves gameId _, EvMove gameId' _ _ => gameId' = gameId
  | _, _ => False
  end.

(** ** Sockets over time *)

(** Socket [w] was admitted under [gameId] and its [close] event has not
    been emitted. *)
Definition alive (s : State) (w : nat) (gameId : string) : Prop :=
  exists sk u,
    sockets s !! w = Some sk /\ onClose sk = Some (gameId, u) /\ readyState sk <> CLOSED.

(** What the connection handler leaves behind.  A socket without [close]
    listener was refused: it carries one of the four close codes, it is not
    open and nothing was sent on it.  A socket with a listener was admitted:
    the handler did not close it, and the first frame sent on it is the
    connected event for the game and the user the listener captured. *)
Definition socketOk (sk : Socket) : Prop :=
  match onClose sk with
  | None =>
      sent sk = [] /\ readyState sk <> OPEN /\
      exists code, closeCode sk = Some code /\ code ∈ [4000; 4001; 4002; 4003]
  | Some (gameId, user) =>
      closeCode sk = None /\
      exists nm, head (sent sk) = Some (EvConnected nm gameId (username user))
  end.

(** ** Proof automation *)

(** Case analysis on the scrutinee of an innermost [match] of the goal. *)
Ltac break_match :=
  match goal with
  | |- context [match ?x with _ => _ end] =>
      lazymatch x with
      | context [match _ with _ => _ end] => fail
      | _ => destruct x eqn:?
      end
  end.

Ltac unfold_routes :=
  unfold app, apiKeyAuth, gameRoutes, postRegister, postGames, getGames, getGame,
    putGame, deleteGameRoute, postPlayers, getPlayers, deletePlayer, postMoves,
    getMoves, getMove, withSockets, withGames, withUsers.

Ltac unfold_store :=
  unfold registerUser, createGame, updateGame, deleteGame, addPlayerToGame,
    removePlayerFromGame, addMoveToGame.

(** * Properties *)

(** ** Strings *)

Lemma eqb_true (a b : string) : (a =? b) = true <-> a = b.
Proof. apply String.eqb_eq. Qed.

Lemma eqb_false (a b : string) : (a =? b) = false <-> a <> b.
Proof. apply String.eqb_neq. Qed.

Lemma elemb_true (x : string) (l : list string) : elemb x l = true <-> x ∈ l.
Proof.
  unfold elemb. rewrite existsb_exists. split.
  - intros (y & Hy & He). apply eqb_true in He. subst. by apply list_elem_of_In.
  - intros Hx. exists x. split; [by apply list_elem_of_In | apply String.eqb_refl].
Qed.

Lemma elemb_false (x : string) (l : list string) : elemb x l = false <-> x ∉ l.
Proof.
  rewrite <- elemb_true. destruct (elemb x l); naive_solver.
Qed.

(** A string that does not start with white space. *)
Definition startsClean (s : string) : Prop :=
  match s with
  | EmptyString => True
  | String c _ => isWhiteSpace c = false
  end.

Lemma trimStart_clean (s : string) : startsClean (trimStart s).
Proof.
  induction s as [|c rest IH]; simpl; [done|].
  destruct (isWhiteSpace c) eqn:Hc; [done | exact Hc].
Qed.

Lemma trimStart_of_clean (s : string) : startsClean s -> trimStart s = s.
Proof. destruct s as [|c rest]; simpl; [done|]. by intros ->. Qed.

Lemma trimEnd_clean (s : string) : startsClean s -> startsClean (trimEnd s).
Proof.
  destruct s as [|c rest]; simpl; [done|]. intros Hc.
  destruct (trimEnd rest); simpl; by rewrite ?Hc.
Qed.

Lemma trimEnd_idem (s : string) : trimEnd (trimEnd s) = trimEnd s.
Proof.
  induction s as [|c rest IH]; simpl; [done|].
  destruct (trimEnd rest) as [|c' kept] eqn:Hrest.
  - destruct (isWhiteSpace c) eqn:Hc; simpl; by rewrite ?Hc.
  - change (trimEnd (String c (String c' kept))) with
      (match trimEnd (String c' kept) with
       | EmptyString => if isWhiteSpace c then EmptyString else String c EmptyString
       | k => String c k
       end).
    rewrite IH. done.
Qed.

Lemma trim_idem (s : string) : trim (trim s) = trim s.
Proof.
  unfold trim.
  rewrite (trimStart_of_clean (trimEnd (trimStart s))).
  - apply trimEnd_idem.
  - apply trimEnd_clean, trimStart_clean.
Qed.

Lemma length_zero_empty (s : string) : (String.length s =? 0)%nat = true <-> s = "".
Proof. destruct s; simpl; split; congruence. Qed.

(** A value passes [invalidName] exactly when it is a string whose trimmed
    form is not empty. *)
Lemma invalidName_false (v : JsValue) :
  invalidName v = false <-> exists str, v = JStr str /\ trim str <> "".
Proof.
  unfold invalidName. split.
  - destruct v; simpl; try (rewrite ?orb_true_r; discriminate).
    intros H. apply orb_false_elim in H as [_ H].
    exists s. split; [done|]. intros He. apply length_zero_empty in He. congruence.
  - intros (str & -> & Hne). simpl.
    assert (Hl : (String.length (trim str) =? 0)%nat = false).
    { destruct (String.length (trim str) =? 0)%nat eqn:E; [|done].
      apply length_zero_empty in E. done. }
    rewrite Hl.
    destruct str as [|c r]; [done|]. done.
Qed.

Example trim_example : trim "  john doe  " = "john doe".
Proof. reflexivity. Qed.

Example removeDashes_example : removeDashes "4cf5-88-87" = "4cf58887".
Proof. reflexivity. Qed.

(** ** Arrays *)

Lemma find_findIndex {A} (p : A -> bool) (l : list A) :
  List.find p l = findIndex p l ≫= (l !!.).
Proof.
  induction l as [|x rest IH]; simpl; [done|].
  destruct (p x); [done|]. rewrite IH. by destruct (findIndex p rest).
Qed.

Lemma findIndex_Some {A} (p : A -> bool) (l : list A) (k : nat) :
  findIndex p l = Some k ->
  exists x, l !! k = Some x /\ p x = true /\ forall j y, j < k -> l !! j = Some y -> p y = false.
Proof.
  revert k. induction l as [|x rest IH]; intros k; simpl; [done|].
  destruct (p x) eqn:Hp.
  - intros [= <-]. exists x. repeat split; [done|]. intros j y Hj. lia.
  - destruct (findIndex p rest) as [k'|] eqn:Hk; simpl; [|done].
    intros [= <-]. destruct (IH k' eq_refl) as (y & Hy & Hpy & Hmin).
    exists y. repeat split; [done..|].
    intros [|j] z Hj; simpl; [congruence|]. apply Hmin. lia.
Qed.

Lemma findIndex_None {A} (p : A -> bool) (l : list A) :
  findIndex p l = None <-> forall x, x ∈ l -> p x = false.
Proof.
  induction l as [|x rest IH]; simpl.
  - split; [|done]. intros _ x Hx. by apply elem_of_nil in Hx.
  - destruct (p x) eqn:Hp.
    + split; [done|]. intros H. specialize (H x (list_elem_of_here _ _)). congruence.
    + destruct (findIndex p rest); simpl.
      * split; [done|]. intros H. exfalso.
        assert (Some n = None) as Hn; [|done].
        apply IH. intros y Hy. apply H. by apply list_elem_of_further.
      * split; [|done]. intros _ y Hy. apply elem_of_cons in Hy as [->|Hy]; [done|].
        by apply IH.
Qed.

Lemma find_Some_elem {A} (p : A -> bool) (l : list A) (x : A) :
  List.find p l = Some x -> x ∈ l /\ p x = true.
Proof. intros H. apply find_some in H as [H1 H2]. split; [by apply list_elem_of_In | done]. Qed.

Lemma find_None_elem {A} (p : A -> bool) (l : list A) :
  List.find p l = None <-> forall x, x ∈ l -> p x = false.
Proof.
  split.
  - intros H x Hx. eapply find_none; [exact H|]. by apply list_elem_of_In.
  - intros H. rewrite find_findIndex.
    assert (findIndex p l = None) as ->; [by apply findIndex_None | done].
Qed.

Lemma modifyFirst_alter {A} (p : A -> bool) (f : A -> A) (l : list A) (k : nat) :
  findIndex p l = Some k -> modifyFirst p f l = alter f k l.
Proof.
  revert k. induction l as [|x rest IH]; intros k; simpl; [done|].
  destruct (p x); [by intros [= <-]|].
  destruct (findIndex p rest) as [k'|]; simpl; [|done].
  intros [= <-]. simpl. f_equal. by apply IH.
Qed.

Lemma modifyFirst_none {A} (p : A -> bool) (f : A -> A) (l : list A) :
  findIndex p l = None -> modifyFirst p f l = l.
Proof.
  induction l as [|x rest IH]; simpl; [done|].
  destruct (p x); [done|]. destruct (findIndex p rest); simpl; [done|].
  intros _. f_equal. by apply IH.
Qed.

Lemma modifyFirst_length {A} (p : A -> bool) (f : A -> A) (l : list A) :
  length (modifyFirst p f l) = length l.
Proof. induction l as [|x rest IH]; simpl; [done|]. destruct (p x); simpl; lia. Qed.

Lemma elem_of_modifyFirst {A} (p : A -> bool) (f : A -> A) (l : list A) (y : A) :
  y ∈ modifyFirst p f l -> y ∈ l \/ exists x, x ∈ l /\ p x = true /\ y = f x.
Proof.
  induction l as [|x rest IH]; simpl; [by left|].
  destruct (p x) eqn:Hp.
  - intros Hy. apply elem_of_cons in Hy as [->|Hy].
    + right. exists x. split; [apply list_elem_of_here | done].
    + left. by apply list_elem_of_further.
  - intros Hy. apply elem_of_cons in Hy as [->|Hy].
    + left. apply list_elem_of_here.
    + destruct (IH Hy) as [H|(x' & H1 & H2 & H3)].
      * left. by apply list_elem_of_further.
      * right. exists x'. split; [by apply list_elem_of_further | done].
Qed.

Lemma Forall_modifyFirst {A} (P : A -> Prop) (p : A -> bool) (f : A -> A) (l : list A) :
  Forall P l -> (forall x, P x -> p x = true -> P (f x)) -> Forall P (modifyFirst p f l).
Proof.
  intros Hl Hf. apply Forall_forall. intros y Hy.
  rewrite Forall_forall in Hl.
  apply elem_of_modifyFirst in Hy as [Hy|(x & Hx & Hp & ->)]; [by apply Hl|].
  apply Hf; [by apply Hl | done].
Qed.

(** ** Reachable states *)

Lemma reachable_run (s : State) (actions : list Action) :
  reachable s -> admissibleRun s actions = true -> reachable (run s actions).
Proof.
  revert s. induction actions as [|a rest IH]; intros s Hs; simpl; [done|].
  intros H. apply andb_true_iff in H as [Ha Hrest].
  apply IH; [|done]. by constructor.
Qed.

Lemma sample_reachable : reachable sample.
Proof. apply reachable_run; [constructor | by vm_compute]. Qed.

(** The end-to-end scenario of the specification: after the sample
    session Alice posts a move for player [p1] with data [{x: 1}], and her
    socket receives one move event with the player's name and that data. *)
Example end_to_end :
  sentOn (next sample (Http (Some aliceKey) (PostMoves "g1" (moveBody "p1"))
                            (draws "m1" "x3" "y3" "t5"))) 0
  = [EvConnected (JStr "G") "g1" "alice";
     EvMove "g1" (Some (mkMove "m1" "p1" (JObj [("x", JNum 1)]) "t5")) "P"].
Proof. reflexivity. Qed.

(** ** The authorization guards *)

Lemma currentUserIsPlayer_true (game : Game) (user : User) :
  currentUserIsPlayer game user = true <-> user_id user ∈ map player_id (players game).
Proof.
  unfold currentUserIsPlayer. rewrite existsb_exists, list_elem_of_fmap. split.
  - intros (p & Hp & He). apply eqb_true in He. exists p. split; [done|].
    by apply list_elem_of_In.
  - intros (p & He & Hp). exists p. split; [by apply list_elem_of_In|].
    apply eqb_true. done.
Qed.

Lemma currentUserIsPlayer_false (game : Game) (user : User) :
  currentUserIsPlayer game user = false <-> user_id user ∉ map player_id (players game).
Proof.
  rewrite <- currentUserIsPlayer_true.
  destruct (currentUserIsPlayer game user); split; try done; intros H; by destruct H.
Qed.

Lemma currentUserIsOwner_true (game : Game) (user : User) :
  currentUserIsOwner game user = true <-> ownerId game = user_id user.
Proof. apply eqb_true. Qed.

Lemma currentUserIsOwner_false (game : Game) (user : User) :
  currentUserIsOwner game user = false <-> ownerId game <> user_id user.
Proof. apply eqb_false. Qed.

(** The guard [!currentUserIsPlayer && !currentUserIsOwner] denies exactly
    the users that are neither the owner nor listed as a player. *)
Lemma guard_denies (game : Game) (user : User) :
  (negb (currentUserIsPlayer game user) && negb (currentUserIsOwner game user) = true) <->
  (user_id user ∉ map player_id (players game)) /\ ownerId game <> user_id user.
Proof.
  rewrite andb_true_iff, !negb_true_iff, currentUserIsPlayer_false, currentUserIsOwner_false.
  done.
Qed.

Lemma guard_admits (game : Game) (user : User) :
  (negb (currentUserIsPlayer game user) && negb (currentUserIsOwner game user) = false) <->
  user_id user ∈ map player_id (players game) \/ ownerId game = user_id user.
Proof.
  rewrite andb_false_iff, !negb_false_iff, currentUserIsPlayer_true, currentUserIsOwner_true.
  done.
Qed.

(** C7. For an existing game, GET /games/:gameId/moves answers 200 exactly
    when the user is the owner or is listed among the players, and 403
    otherwise; GET /games/:gameId/moves/:moveId answers 200 only to the
    owner and 403 to everyone else, players included. *)
Theorem moves_read_authorization (s : State) (user : User) (gameId moveId : string)
    (game : Game) :
  getGameById gameId (games s) = Some game ->
  (statusCode (getMoves user gameId s).1 = 200 <->
     ownerId game = user_id user \/ user_id user ∈ map player_id (players game))
  /\ (statusCode (getMoves user gameId s).1 = 200 ->
      payload (getMoves user gameId s).1 = PMoves gameId (length (moves game)) (moves game))
  /\ (statusCode (getMoves user gameId s).1 <> 200 ->
      statusCode (getMoves user gameId s).1 = 403)
  /\ (statusCode (getMove user gameId moveId s).1 = 200 -> ownerId game = user_id user)
  /\ (ownerId game <> user_id user -> statusCode (getMove user gameId moveId s).1 = 403).
Proof.
  intros Hgame. unfold getMoves, getMove, getGameMoves. rewrite Hgame.
  destruct (negb (currentUserIsPlayer game user) && negb (currentUserIsOwner game user))
    eqn:Hguard; simpl.
  - apply guard_denies in Hguard as [Hnp Hno].
    assert ((ownerId game =? user_id user) = false) as -> by by apply eqb_false.
    simpl. repeat split; try done; try lia. intros [?|?]; done.
  - apply guard_admits in Hguard.
    repeat split; try done; try tauto.
    + destruct (ownerId game =? user_id user) eqn:Ho; simpl.
      * intros _. by apply eqb_true.
      * intros; lia.
    + intros Hno. apply eqb_false in Hno. by rewrite Hno.
Qed.

(** A user whose identifier is that of player [p1] of [g1], and who does
    not own the game, may list its moves but not look one up. *)
Lemma moves_read_authorization_witness :
  statusCode (getMoves (mkUser "p1" "pat" "kp" "t") "g1" sample).1 = 200
  /\ statusCode (getMove (mkUser "p1" "pat" "kp" "t") "g1" "m1" sample).1 = 403.
Proof.
  destruct (moves_read_authorization sample (mkUser "p1" "pat" "kp" "t") "g1" "m1"
              sampleGame eq_refl) as (Hlist & _ & _ & _ & Hone).
  split.
  - apply Hlist. right. apply list_elem_of_here.
  - apply Hone. by vm_compute.
Defined.

(** ** Broadcasts *)

Lemma after_zero (message : Event) (sk : Socket) : after 0 message sk = sk.
Proof. destruct sk. unfold after. simpl. by rewrite app_nil_r. Qed.

Lemma deliver_length (message : Event) (socks : list Socket) (c : Conn) :
  length (deliver message socks c) = length socks.
Proof. unfold deliver. destruct (isOpen socks (ws c)); [apply length_alter | done]. Qed.

Lemma deliver_lookup (message : Event) (socks : list Socket) (c : Conn) (w : nat)
    (sk : Socket) :
  socks !! w = Some sk ->
  deliver message socks c !! w =
    Some (after (if (ws c =? w)%nat && (readyState sk =? OPEN)%nat then 1 else 0) message sk).
Proof.
  intros Hw. unfold deliver, isOpen.
  destruct (Nat.eqb_spec (ws c) w) as [->|Hne]; simpl.
  - rewrite Hw. destruct (readyState sk =? OPEN)%nat.
    + rewrite list_lookup_alter_eq, Hw. done.
    + by rewrite after_zero.
  - rewrite after_zero. destruct (socks !! ws c) as [sk'|]; [|done].
    destruct (readyState sk' =? OPEN)%nat; [|done].
    by rewrite list_lookup_alter_ne.
Qed.

Lemma foldl_deliver_length (message : Event) (connections : list Conn)
    (socks : list Socket) :
  length (foldl (deliver message) socks connections) = length socks.
Proof.
  revert socks. induction connections as [|c rest IH]; intros socks; simpl; [done|].
  by rewrite IH, deliver_length.
Qed.

(** A broadcast over [connections] appends the message to an open socket
    once per entry that lists it, and leaves every other socket alone. *)
Lemma foldl_deliver_lookup (message : Event) (connections : list Conn)
    (socks : list Socket) (w : nat) (sk : Socket) :
  socks !! w = Some sk ->
  foldl (deliver message) socks connections !! w =
    Some (after (if (readyState sk =? OPEN)%nat then occurrences w connections else 0)
                message sk).
Proof.
  revert socks sk. induction connections as [|c rest IH]; intros socks sk Hw; simpl.
  - destruct (readyState sk =? OPEN)%nat; by rewrite after_zero.
  - erewrite IH; [|by apply deliver_lookup]. f_equal.
    unfold occurrences, after. simpl.
    destruct (ws c =? w)%nat, (readyState sk =? OPEN)%nat; simpl;
      rewrite ?app_nil_r; try done.
    by rewrite <- app_assoc.
Qed.

Lemma broadcast_length (gameId : string) (message : Event)
    (conns : gmap string (list Conn)) (socks : list Socket) :
  length (broadcastToGame gameId message conns socks) = length socks.
Proof.
  unfold broadcastToGame. destruct (conns !! gameId); [apply foldl_deliver_length | done].
Qed.

Lemma broadcast_lookup (gameId : string) (message : Event)
    (conns : gmap string (list Conn)) (socks : list Socket) (w : nat) (sk : Socket) :
  socks !! w = Some sk ->
  broadcastToGame gameId message conns socks !! w =
    Some (after (if (readyState sk =? OPEN)%nat
                 then occurrences w (default [] (conns !! gameId)) else 0) message sk).
Proof.
  intros Hw. unfold broadcastToGame. destruct (conns !! gameId) as [l|]; simpl.
  - by apply foldl_deliver_lookup.
  - rewrite Hw. destruct (readyState sk =? OPEN)%nat; by rewrite after_zero.
Qed.

Lemma broadcast_lookup_None (gameId : string) (message : Event)
    (conns : gmap string (list Conn)) (socks : list Socket) (w : nat) :
  socks !! w = None -> broadcastToGame gameId message conns socks !! w = None.
Proof.
  intros Hw. apply lookup_ge_None. rewrite broadcast_length. by apply lookup_ge_None.
Qed.

Lemma occurrences_zero (w : nat) (connections : list Conn) :
  w ∉ map ws connections -> occurrences w connections = 0.
Proof.
  unfold occurrences. induction connections as [|c rest IH]; simpl; [done|].
  intros Hn. apply not_elem_of_cons in Hn as [Hne Hn].
  destruct (Nat.eqb_spec (ws c) w); [congruence|]. by apply IH.
Qed.

Lemma occurrences_one (w : nat) (connections : list Conn) :
  NoDup (map ws connections) -> w ∈ map ws connections -> occurrences w connections = 1.
Proof.
  unfold occurrences. induction connections as [|c rest IH]; simpl.
  - intros _ H. by apply elem_of_nil in H.
  - intros Hnd Hin. apply NoDup_cons in Hnd as [Hnot Hnd].
    destruct (Nat.eqb_spec (ws c) w) as [Heq|Hne]; simpl.
    + f_equal. subst w. by apply (occurrences_zero (ws c) rest).
    + apply elem_of_cons in Hin as [->|Hin]; [done|]. by apply IH.
Qed.

(** ** What a request leaves alone *)

(** No request touches the registry. *)
Lemma app_registry (header : option string) (req : Request) (d : Draws) (s : State) :
  gameConnections (app header req d s).2 = gameConnections s.
Proof. unfold_routes. destruct req; repeat break_match; done. Qed.

(** A request leaves the sockets alone or runs one broadcast over them. *)
Lemma app_sockets (header : option string) (req : Request) (d : Draws) (s : State) :
  sockets (app header req d s).2 = sockets s \/
  exists gameId message,
    sockets (app header req d s).2 =
      broadcastToGame gameId message (gameConnections s) (sockets s).
Proof.
  unfold_routes. destruct req; repeat break_match; simpl; try (by left); right; eauto.
Qed.

Lemma app_sockets_length (header : option string) (req : Request) (d : Draws) (s : State) :
  length (sockets (app header req d s).2) = length (sockets s).
Proof.
  destruct (app_sockets header req d s) as [->|(g & m & ->)]; [done|].
  apply broadcast_length.
Qed.

Lemma app_socket_lookup (header : option string) (req : Request) (d : Draws) (s : State)
    (w : nat) (sk : Socket) :
  sockets s !! w = Some sk ->
  exists n message, sockets (app header req d s).2 !! w = Some (after n message sk)
                    /\ (readyState sk <> OPEN -> n = 0).
Proof.
  intros Hw. destruct (app_sockets header req d s) as [->|(g & m & ->)].
  - exists 0, (EvPlayerDisconnected ""). by rewrite after_zero.
  - eexists _, m. rewrite (broadcast_lookup _ _ _ _ _ _ Hw). split; [done|].
    intros Hno. destruct (Nat.eqb_spec (readyState sk) OPEN); done.
Qed.

(** ** The registry invariant *)

Lemma entryOk_sockets (s s' : State) (gameId : string) (c : Conn) :
  (forall w sk, sockets s !! w = Some sk -> readyState sk <> CLOSED ->
     exists sk', sockets s' !! w = Some sk' /\ readyState sk' <> CLOSED /\
                 onClose sk' = onClose sk) ->
  entryOk s gameId c -> entryOk s' gameId c.
Proof.
  intros Hsocks (sk & u & Hw & Hrs & Hon & Hname & Hid).
  destruct (Hsocks _ _ Hw Hrs) as (sk' & Hw' & Hrs' & Hon').
  exists sk', u. rewrite Hon'. done.
Qed.

Lemma registryOk_sockets (s s' : State) :
  gameConnections s' = gameConnections s ->
  (forall w sk, sockets s !! w = Some sk -> readyState sk <> CLOSED ->
     exists sk', sockets s' !! w = Some sk' /\ readyState sk' <> CLOSED /\
                 onClose sk' = onClose sk) ->
  registryOk s -> registryOk s'.
Proof.
  intros Hreg Hsocks Hok gameId l Hl. rewrite Hreg in Hl.
  destruct (Hok _ _ Hl) as [Hnd Hent]. split; [done|].
  intros c Hc. eapply entryOk_sockets; [exact Hsocks | by apply Hent].
Qed.

Lemma registryOk_app (header : option string) (req : Request) (d : Draws) (s : State) :
  registryOk s -> registryOk (app header req d s).2.
Proof.
  apply registryOk_sockets; [apply app_registry|].
  intros w sk Hw Hrs.
  destruct (app_socket_lookup header req d s w sk Hw) as (n & m & Hw' & _).
  eexists. split; [exact Hw'|]. done.
Qed.

Lemma registryOk_reject (code : nat) (s : State) : registryOk s -> registryOk (reject code s).
Proof.
  apply registryOk_sockets; [done|].
  intros w sk Hw Hrs. exists sk. split; [|done].
  simpl. by apply lookup_app_l_Some.
Qed.

(** An entry of a sound registry points below the end of the socket table. *)
Lemma registered_lt (s : State) (gameId : string) (l : list Conn) (c : Conn) :
  registryOk s -> gameConnections s !! gameId = Some l -> c ∈ l ->
  ws c < length (sockets s).
Proof.
  intros Hok Hl Hc. destruct (Hok _ _ Hl) as [_ Hent].
  destruct (Hent _ Hc) as (sk & u & Hw & _). by eapply lookup_lt_Some.
Qed.

Lemma registryOk_onConnection (apiKeyParam gameIdParam : option string) (s : State) :
  registryOk s -> registryOk (onConnection apiKeyParam gameIdParam s).
Proof.
  intros Hok. unfold onConnection.
  destruct (negb (present apiKeyParam) || negb (present gameIdParam));
    [by apply registryOk_reject|].
  destruct (getUserByApiKey _ _) as [u|]; [|by apply registryOk_reject].
  destruct (getGameById _ _) as [g0|]; [|by apply registryOk_reject].
  destruct (negb _ && negb _); [by apply registryOk_reject|].
  set (gameId := default "" gameIdParam).
  intros g l Hl. simpl in Hl.
  assert (Hold : forall g' l' c, gameConnections s !! g' = Some l' -> c ∈ l' ->
            entryOk (mkState (users s) (games s)
                       (<[gameId := default [] (gameConnections s !! gameId) ++
                                    [mkConn (length (sockets s)) (user_id u) (username u)]]>
                          (gameConnections s))
                       (sockets s ++ [mkSocket OPEN None
                          [EvConnected (name g0) gameId (username u)] (Some (gameId, u))]))
                    g' c).
  { intros g' l' c Hl' Hc. destruct (Hok _ _ Hl') as [_ Hent].
    eapply entryOk_sockets; [|by apply Hent].
    intros w sk Hw Hrs. exists sk. split; [|done]. simpl. by apply lookup_app_l_Some. }
  destruct (decide (gameId = g)) as [<-|Hne].
  - rewrite lookup_insert_eq in Hl. injection Hl as <-.
    destruct (gameConnections s !! gameId) as [l0|] eqn:Hl0; simpl.
    + destruct (Hok _ _ Hl0) as [Hnd _]. split.
      * rewrite map_app. simpl. apply NoDup_app. split; [done|]. split.
        -- intros x Hx Hx'. apply list_elem_of_singleton in Hx'. subst x.
           apply list_elem_of_fmap in Hx as (c & Hc1 & Hc2).
           pose proof (registered_lt s gameId l0 c Hok Hl0 Hc2). lia.
        -- apply NoDup_singleton.
      * intros c Hc. apply elem_of_app in Hc as [Hc|Hc]; [by eapply Hold|].
        apply list_elem_of_singleton in Hc. subst c.
        exists (mkSocket OPEN None [EvConnected (name g0) gameId (username u)]
                         (Some (gameId, u))), u.
        simpl. rewrite lookup_app_r; [|lia]. rewrite Nat.sub_diag. done.
    + split; [apply NoDup_singleton|].
      intros c Hc. apply list_elem_of_singleton in Hc. subst c.
      exists (mkSocket OPEN None [EvConnected (name g0) gameId (username u)]
                       (Some (gameId, u))), u.
      simpl. rewrite lookup_app_r; [|lia]. rewrite Nat.sub_diag. done.
  - rewrite lookup_insert_ne in Hl; [|done].
    destruct (Hok _ _ Hl) as [Hnd _]. split; [done|].
    intros c Hc. by eapply Hold.
Qed.

Lemma findIndex_ws (w : nat) (l : list Conn) (i : nat) :
  findIndex (fun c => (ws c =? w)%nat) l = Some i -> map ws l !! i = Some w.
Proof.
  intros H. apply findIndex_Some in H as (c & Hc & Hw & _).
  apply Nat.eqb_eq in Hw. rewrite list_lookup_fmap, Hc. simpl. by f_equal.
Qed.

Lemma findIndex_ws_None (w : nat) (l : list Conn) :
  findIndex (fun c => (ws c =? w)%nat) l = None -> w ∉ map ws l.
Proof.
  intros H Hin. apply list_elem_of_fmap in Hin as (c & -> & Hc).
  rewrite findIndex_None in H. specialize (H c Hc). by rewrite Nat.eqb_refl in H.
Qed.

(** Removing the first entry of a socket from a list that names it once
    removes the socket from the list. *)
Lemma splice_ws (w : nat) (l : list Conn) (i : nat) :
  findIndex (fun c => (ws c =? w)%nat) l = Some i ->
  NoDup (map ws l) ->
  (w ∉ map ws (splice1 i l)) /\ NoDup (map ws (splice1 i l)).
Proof.
  intros Hi Hnd. apply findIndex_ws in Hi. unfold splice1.
  change (map ws (delete i l)) with (ws <$> delete i l).
  rewrite list_fmap_delete. split.
  - intros Hin. apply list_elem_of_lookup in Hin as (j & Hj).
    destruct (decide (j < i)) as [Hlt|Hge].
    + rewrite list_lookup_delete_lt in Hj; [|done].
      pose proof (NoDup_lookup _ _ _ _ Hnd Hj Hi). lia.
    + rewrite list_lookup_delete_ge in Hj; [|lia].
      pose proof (NoDup_lookup _ _ _ _ Hnd Hj Hi). lia.
  - eapply sublist_NoDup; [exact Hnd | apply sublist_delete].
Qed.

Lemma registryOk_shrink (s s' : State) :
  (forall g l', gameConnections s' !! g = Some l' ->
     exists l, gameConnections s !! g = Some l /\ NoDup (map ws l') /\
       forall c, c ∈ l' -> c ∈ l /\
         forall sk, sockets s !! ws c = Some sk ->
           exists sk', sockets s' !! ws c = Some sk' /\ readyState sk' <> CLOSED /\
                       onClose sk' = onClose sk) ->
  registryOk s -> registryOk s'.
Proof.
  intros H Hok g l' Hl'. destruct (H _ _ Hl') as (l & Hl & Hnd & Hc).
  split; [done|]. intros c Hin. destruct (Hc _ Hin) as [Hin' Hsk].
  destruct (Hok _ _ Hl) as [_ Hent].
  destruct (Hent _ Hin') as (sk & u & Hw & Hrs & Hon & Hname & Hid).
  destruct (Hsk _ Hw) as (sk' & Hw' & Hrs' & Hon').
  exists sk', u. rewrite Hon'. done.
Qed.

Lemma registryOk_startClosing (w : nat) (s : State) :
  registryOk s -> registryOk (startClosing w s).
Proof.
  unfold startClosing. destruct (isOpen (sockets s) w); [|done].
  apply registryOk_sockets; [done|].
  intros w' sk Hw Hrs. simpl. destruct (decide (w = w')) as [<-|Hne].
  - rewrite list_lookup_alter_eq, Hw. simpl. eexists. split; [done|]. simpl.
    split; [unfold CLOSING, CLOSED; lia | done].
  - rewrite list_lookup_alter_ne; [|done]. by exists sk.
Qed.

(** In a sound registry the game a socket is registered under is the game
    its [close] listener captured. *)
Lemma registered_listener (s : State) (g : string) (l : list Conn) (c : Conn)
    (sk : Socket) :
  registryOk s -> gameConnections s !! g = Some l -> c ∈ l ->
  sockets s !! ws c = Some sk ->
  readyState sk <> CLOSED /\
  exists u, onClose sk = Some (g, u) /\ conn_username c = username u.
Proof.
  intros Hok Hl Hc Hw. destruct (Hok _ _ Hl) as [_ Hent].
  destruct (Hent _ Hc) as (sk' & u & Hw' & Hrs & Hon & Hname & _).
  rewrite Hw in Hw'. injection Hw' as <-. split; [done|]. by exists u.
Qed.

Lemma registryOk_onCloseEvent (w : nat) (s : State) :
  registryOk s -> registryOk (onCloseEvent w s).
Proof.
  intros Hok. unfold onCloseEvent.
  destruct (sockets s !! w) as [sk|] eqn:Hw; [|done].
  assert (Hlt : w < length (sockets s)) by by eapply lookup_lt_Some.
  set (socks := <[w := mkSocket CLOSED (closeCode sk) (sent sk) (onClose sk)]> (sockets s)).
  assert (Hother : forall w' sk', w' <> w -> sockets s !! w' = Some sk' ->
            socks !! w' = Some sk').
  { intros w' sk' Hne Hw'. unfold socks. by rewrite list_lookup_insert_ne. }
  destruct (onClose sk) as [[gameId user]|] eqn:Hon.
  - apply (registryOk_shrink s); [|done]. simpl. intros g l' Hl'.
    assert (Hkeep : forall l c, gameConnections s !! g = Some l -> c ∈ l -> ws c <> w ->
              forall sk0, sockets s !! ws c = Some sk0 ->
                exists sk', broadcastToGame gameId (EvPlayerDisconnected (username user))
                              (match gameConnections s !! gameId with
                               | Some connections =>
                                   match findIndex (fun c => (ws c =? w)%nat) connections with
                                   | Some index =>
                                       <[gameId := splice1 index connections]> (gameConnections s)
                                   | None => gameConnections s
                                   end
                               | None => gameConnections s
                               end) socks !! ws c = Some sk' /\
                  readyState sk' <> CLOSED /\ onClose sk' = onClose sk0).
    { intros l c Hl Hc Hne sk0 Hsk0.
      destruct (registered_listener s g l c sk0 Hok Hl Hc Hsk0) as [Hrs _].
      rewrite (broadcast_lookup _ _ _ _ _ _ (Hother _ _ Hne Hsk0)).
      eexists. split; [done|]. done. }
    assert (Hforeign : forall l c, g <> gameId -> gameConnections s !! g = Some l ->
              c ∈ l -> ws c <> w).
    { intros l c Hne Hl Hc Heq. rewrite <- Heq in Hw.
      destruct (registered_listener s g l c sk Hok Hl Hc Hw) as [_ (u & Hu & _)].
      congruence. }
    destruct (gameConnections s !! gameId) as [connections|] eqn:Hconn.
    + destruct (findIndex (fun c => (ws c =? w)%nat) connections) as [index|] eqn:Hidx.
      * destruct (decide (gameId = g)) as [<-|Hne].
        -- rewrite lookup_insert_eq in Hl'. injection Hl' as <-.
           destruct (Hok _ _ Hconn) as [Hnd _].
           destruct (splice_ws w connections index Hidx Hnd) as [Hnot Hnd'].
           exists connections. split; [done|]. split; [done|].
           intros c Hc.
           assert (Hc' : c ∈ connections) by by eapply list_elem_of_delete_inv.
           split; [done|]. apply (Hkeep connections c Hconn Hc').
           intros Heq. apply Hnot. rewrite <- Heq. apply list_elem_of_fmap. by exists c.
        -- rewrite lookup_insert_ne in Hl'; [|done].
           destruct (Hok _ _ Hl') as [Hnd _]. exists l'. split; [done|]. split; [done|].
           intros c Hc. split; [done|]. apply (Hkeep l' c Hl' Hc). by eapply Hforeign.
      * destruct (Hok _ _ Hl') as [Hnd _]. exists l'. split; [done|]. split; [done|].
        intros c Hc. split; [done|]. apply (Hkeep l' c Hl' Hc).
        destruct (decide (g = gameId)) as [->|Hne]; [|by eapply Hforeign].
        rewrite Hconn in Hl'. injection Hl' as <-.
        apply findIndex_ws_None in Hidx. intros Heq. apply Hidx. rewrite <- Heq.
        apply list_elem_of_fmap. by exists c.
    + destruct (Hok _ _ Hl') as [Hnd _]. exists l'. split; [done|]. split; [done|].
      intros c Hc. split; [done|]. apply (Hkeep l' c Hl' Hc).
      destruct (decide (g = gameId)) as [->|Hne]; [congruence | by eapply Hforeign].
  - apply (registryOk_shrink s); [|done]. simpl. intros g l' Hl'.
    destruct (Hok _ _ Hl') as [Hnd _]. exists l'. split; [done|]. split; [done|].
    intros c Hc. split; [done|]. intros sk0 Hsk0.
    destruct (registered_listener s g l' c sk0 Hok Hl' Hc Hsk0) as [Hrs (u & Hu & _)].
    exists sk0. split; [|done]. apply Hother; [|done].
    intros Heq. rewrite Heq, Hw in Hsk0. congruence.
Qed.

Lemma registryOk_next (s : State) (a : Action) : registryOk s -> registryOk (next s a).
Proof.
  destruct a; simpl.
  - apply registryOk_app.
  - apply registryOk_onConnection.
  - apply registryOk_startClosing.
  - apply registryOk_onCloseEvent.
Qed.

Lemma registryOk_init : registryOk init.
Proof. intros g l Hl. simpl in Hl. by rewrite lookup_empty in Hl. Qed.

Lemma reachable_registryOk (s : State) : reachable s -> registryOk s.
Proof.
  induction 1; [apply registryOk_init | by apply registryOk_next].
Qed.

(** ** Who receives a broadcast *)

Lemma isOpen_spec (socks : list Socket) (w : nat) :
  isOpen socks w = true <-> exists sk, socks !! w = Some sk /\ readyState sk = OPEN.
Proof.
  unfold isOpen. destruct (socks !! w) as [sk|]; split.
  - intros H. apply Nat.eqb_eq in H. by exists sk.
  - intros (sk' & [= <-] & H). by apply Nat.eqb_eq.
  - done.
  - by intros (sk' & H & _).
Qed.

(** A socket is registered under one game only. *)
Lemma registered_unique (s : State) (w : nat) (g g' : string) :
  registryOk s -> w ∈ registeredFor s g -> w ∈ registeredFor s g' -> g = g'.
Proof.
  intros Hok H1 H2. unfold registeredFor in *.
  apply list_elem_of_fmap in H1 as (c1 & -> & Hc1).
  apply list_elem_of_fmap in H2 as (c2 & Heq & Hc2).
  destruct (gameConnections s !! g) as [l1|] eqn:Hl1; [|by apply elem_of_nil in Hc1].
  destruct (gameConnections s !! g') as [l2|] eqn:Hl2; [|by apply elem_of_nil in Hc2].
  simpl in *.
  destruct (Hok _ _ Hl1) as [_ Hent1]. destruct (Hok _ _ Hl2) as [_ Hent2].
  destruct (Hent1 _ Hc1) as (sk1 & u1 & Hw1 & _ & Hon1 & _).
  destruct (Hent2 _ Hc2) as (sk2 & u2 & Hw2 & _ & Hon2 & _).
  rewrite Heq, Hw2 in Hw1. injection Hw1 as <-. congruence.
Qed.

Lemma registeredFor_NoDup (s : State) (g : string) :
  registryOk s -> NoDup (registeredFor s g).
Proof.
  intros Hok. unfold registeredFor.
  destruct (gameConnections s !! g) as [l|] eqn:Hl; simpl; [|apply NoDup_nil_2].
  by destruct (Hok _ _ Hl).
Qed.

(** The frames a broadcast adds to a socket: one on an open socket
    registered for the game, none on any other socket. *)
Lemma broadcast_sentOn (s : State) (g : string) (message : Event) (w : nat) :
  NoDup (registeredFor s g) ->
  sentOn (withSockets s (broadcastToGame g message (gameConnections s) (sockets s))) w =
  sentOn s w ++
    (if isOpen (sockets s) w && bool_decide (w ∈ registeredFor s g) then [message] else []).
Proof.
  intros Hnd. unfold sentOn, isOpen. simpl.
  destruct (sockets s !! w) as [sk|] eqn:Hw.
  - rewrite (broadcast_lookup _ _ _ _ _ _ Hw). simpl.
    destruct (readyState sk =? OPEN)%nat; simpl; [|done].
    case_bool_decide as Hreg.
    + rewrite occurrences_one; [done | exact Hnd | exact Hreg].
    + by rewrite occurrences_zero.
  - rewrite broadcast_lookup_None; [|done]. done.
Qed.

Lemma find_modifyFirst {A} (p : A -> bool) (f : A -> A) (l : list A) :
  (forall x, p (f x) = p x) ->
  List.find p (modifyFirst p f l) = f <$> List.find p l.
Proof.
  intros Hf. induction l as [|x rest IH]; simpl; [done|].
  destruct (p x) eqn:Hp; simpl.
  - by rewrite Hf, Hp.
  - by rewrite Hp.
Qed.

Lemma find_modifyFirst_other {A} (p q : A -> bool) (f : A -> A) (l : list A) (x : A) :
  (forall y, q (f y) = q y) ->
  List.find q l = Some x -> p x = false ->
  List.find q (modifyFirst p f l) = Some x.
Proof.
  intros Hf. induction l as [|y rest IH]; simpl; [done|].
  destruct (q y) eqn:Hq.
  - intros [= ->] Hp. rewrite Hp. simpl. by rewrite Hq.
  - intros Hx Hp. destruct (p y); simpl.
    + by rewrite Hf, Hq.
    + rewrite Hq. by apply IH.
Qed.

(** C1. After a successful POST /games/:gameId/players, the response and
    the broadcast carry the new player (identifier, trimmed name, join
    timestamp), who is now last in the game's roster; every socket that is
    registered for the game and open has received exactly one more frame,
    the player-joined event, and a socket registered for a different game,
    like any socket that is not open, has received nothing. *)
Theorem player_joined_broadcast (s : State) (header : option string)
    (gameId : string) (body : JsValue) (d : Draws) :
  reachable s ->
  statusCode (app header (PostPlayers gameId body) d s).1 = 201 ->
  let s' := (app header (PostPlayers gameId body) d s).2 in
  exists str game,
    destructure body "name" = Some (JStr str) /\
    getGameById gameId (games s) = Some game /\
    let player := mkPlayer (uuid1 d) (trim str) (now1 d) in
    payload (app header (PostPlayers gameId body) d s).1 = PPlayerAdded (Some player) /\
    getGamePlayers gameId (games s') = players game ++ [player] /\
    (forall w, w ∈ registeredFor s gameId -> isOpen (sockets s) w = true ->
       sentOn s' w = sentOn s w ++ [EvPlayerJoined gameId (Some player)]) /\
    (forall w other, other <> gameId -> w ∈ registeredFor s other ->
       sentOn s' w = sentOn s w) /\
    (forall w, isOpen (sockets s) w = false -> sentOn s' w = sentOn s w) /\
    gameConnections s' = gameConnections s.
Proof.
  intros Hreach. pose proof (reachable_registryOk s Hreach) as Hok.
  unfold app, apiKeyAuth, gameRoutes, postPlayers.
  destruct (negb (present header)); [simpl; lia|].
  destruct (getUserByApiKey _ _) as [user|]; [|simpl; lia].
  destruct (getGameById gameId (games s)) as [game|] eqn:Hgame; [|simpl; lia].
  destruct (negb (ownerId game =? user_id user)); [simpl; lia|].
  destruct (destructure body "name") as [nm|] eqn:Hnm; [|simpl; lia].
  destruct (invalidName nm) eqn:Hinv; [simpl; lia|].
  apply invalidName_false in Hinv as (str & -> & Hne).
  unfold addPlayerToGame. unfold getGameById in Hgame. rewrite Hgame.
  intros _. exists str, game. simpl.
  split; [done|]. split; [done|]. split; [done|]. split.
  - unfold getGamePlayers, getGameById. rewrite find_modifyFirst; [|done].
    by rewrite Hgame.
  - pose proof (fun w => broadcast_sentOn s gameId
      (EvPlayerJoined gameId (Some (mkPlayer (uuid1 d) (trim str) (now1 d)))) w
      (registeredFor_NoDup s gameId Hok)) as Hb.
    unfold sentOn in *. simpl in *.
    split; [|split; [|split; [|done]]].
    + intros w Hw Hopen. rewrite Hb, Hopen. by rewrite bool_decide_eq_true_2.
    + intros w other Hne' Hw. rewrite Hb.
      rewrite bool_decide_eq_false_2; [by rewrite andb_false_r, app_nil_r|].
      intros Hw'. apply Hne'. by eapply registered_unique.
    + intros w Hclosed. rewrite Hb, Hclosed. simpl. by rewrite app_nil_r.
Qed.

Lemma player_joined_broadcast_witness :
  sentOn (app (Some aliceKey) (PostPlayers "g1" (field "name" (JStr " Q ")))
              (draws "p2" "x" "y" "t4") sample).2 0 =
  sentOn sample 0 ++ [EvPlayerJoined "g1" (Some (mkPlayer "p2" "Q" "t4"))].
Proof.
  destruct (player_joined_broadcast sample (Some aliceKey) "g1"
              (field "name" (JStr " Q ")) (draws "p2" "x" "y" "t4")
              sample_reachable eq_refl)
    as (str & game & Hstr & _ & _ & _ & Hopen & _).
  injection Hstr as <-.
  apply Hopen; [apply (bool_decide_unpack _); by vm_compute | reflexivity].
Defined.

(** ** Sockets that are not open *)

Lemma frozen_refl (sk : Socket) : readyState sk <> OPEN -> frozen sk sk.
Proof. by intros H. Qed.

Lemma frozen_trans (a b c : Socket) : frozen a b -> frozen b c -> frozen a c.
Proof.
  intros (H1 & H2 & H3 & H4 & H5) (G1 & G2 & G3 & G4 & G5).
  repeat split; try congruence. intros H. apply G5, H5, H.
Qed.

Lemma frozen_after (message : Event) (sk : Socket) :
  readyState sk <> OPEN -> frozen sk (after 0 message sk).
Proof. intros H. rewrite after_zero. by apply frozen_refl. Qed.

(** No step sends anything on a socket that is not open, and no step
    reopens it or changes its listener. *)
Lemma next_frozen (s : State) (a : Action) (w : nat) (sk : Socket) :
  sockets s !! w = Some sk -> readyState sk <> OPEN ->
  exists sk', sockets (next s a) !! w = Some sk' /\ frozen sk sk'.
Proof.
  intros Hw Hrs. destruct a as [header req d|apiKeyParam gameIdParam|w'|w']; simpl.
  - destruct (app_socket_lookup header req d s w sk Hw) as (n & m & Hw' & Hn).
    rewrite (Hn Hrs) in Hw'. eexists. split; [exact Hw'|]. by apply frozen_after.
  - exists sk. split; [|by apply frozen_refl].
    unfold onConnection, reject. repeat break_match; simpl; by apply lookup_app_l_Some.
  - exists sk. split; [|by apply frozen_refl].
    unfold startClosing. destruct (isOpen (sockets s) w') eqn:Hopen; [|done]. simpl.
    rewrite list_lookup_alter_ne; [done|]. intros ->.
    apply isOpen_spec in Hopen as (sk0 & Hsk0 & Hopen). congruence.
  - unfold onCloseEvent. destruct (sockets s !! w') as [sk0|] eqn:Hw0.
    2: { exists sk. split; [done | by apply frozen_refl]. }
    assert (Hins : exists sk1,
              <[w' := mkSocket CLOSED (closeCode sk0) (sent sk0) (onClose sk0)]> (sockets s) !! w
                = Some sk1 /\ frozen sk sk1).
    { destruct (decide (w' = w)) as [->|Hne].
      - rewrite list_lookup_insert_eq; [|by eapply lookup_lt_Some].
        eexists. split; [done|]. rewrite Hw in Hw0. injection Hw0 as <-.
        repeat split; simpl; try done; unfold CLOSED, OPEN; lia.
      - rewrite list_lookup_insert_ne; [|done]. exists sk. split; [done|].
        by apply frozen_refl. }
    destruct Hins as (sk1 & Hsk1 & Hfr).
    destruct (onClose sk0) as [[gameId user]|]; simpl.
    + rewrite (broadcast_lookup _ _ _ _ _ _ Hsk1).
      assert ((readyState sk1 =? OPEN)%nat = false) as ->.
      { apply Nat.eqb_neq. by destruct Hfr as (_ & _ & _ & H & _). }
      eexists. split; [done|]. rewrite after_zero. done.
    + by exists sk1.
Qed.

Lemma run_frozen (actions : list Action) (s : State) (w : nat) (sk : Socket) :
  sockets s !! w = Some sk -> readyState sk <> OPEN ->
  exists sk', sockets (run s actions) !! w = Some sk' /\ frozen sk sk'.
Proof.
  revert s sk. induction actions as [|a rest IH]; intros s sk Hw Hrs; simpl.
  - exists sk. split; [done | by apply frozen_refl].
  - destruct (next_frozen s a w sk Hw Hrs) as (sk1 & Hw1 & Hfr1).
    destruct (IH (next s a) sk1 Hw1) as (sk2 & Hw2 & Hfr2).
    { by destruct Hfr1 as (_ & _ & _ & H & _). }
    exists sk2. split; [done|]. by eapply frozen_trans.
Qed.

(** A socket without listener, and a closed socket, are not registered. *)
Lemma not_registered (s : State) (w : nat) (sk : Socket) (g : string) :
  registryOk s -> sockets s !! w = Some sk ->
  onClose sk = None \/ readyState sk = CLOSED ->
  w ∉ registeredFor s g.
Proof.
  intros Hok Hw Hsk Hin. unfold registeredFor in Hin.
  apply list_elem_of_fmap in Hin as (c & -> & Hc).
  destruct (gameConnections s !! g) as [l|] eqn:Hl; [|by apply elem_of_nil in Hc].
  destruct (registered_listener s g l c sk Hok Hl Hc Hw) as [Hrs (u & Hu & _)].
  destruct Hsk; congruence.
Qed.

(** ** The handshake *)

Lemma reject_refusedWith (code : nat) (s : State) : refusedWith code s (reject code s).
Proof.
  split; [|done]. simpl. rewrite lookup_app_r; [|lia]. by rewrite Nat.sub_diag.
Qed.

Lemma getUserByApiKey_None (key : string) (us : list User) :
  getUserByApiKey key us = None <-> forall u, u ∈ us -> apiKey u <> key.
Proof.
  unfold getUserByApiKey. rewrite find_None_elem.
  split; intros H u Hu; apply eqb_false; by apply H.
Qed.

Lemma getGameById_None (gameId : string) (gs : list Game) :
  getGameById gameId gs = None <-> forall g, g ∈ gs -> game_id g <> gameId.
Proof.
  unfold getGameById, hasId. rewrite find_None_elem.
  split; intros H g Hg; apply eqb_false; by apply H.
Qed.

(** A socket that the handler closed with a code was refused. *)
Lemma closed_with_code (apiKeyParam gameIdParam : option string) (s : State)
    (sk : Socket) (code : nat) :
  sockets (onConnection apiKeyParam gameIdParam s) !! length (sockets s) = Some sk ->
  closeCode sk = Some code ->
  onConnection apiKeyParam gameIdParam s = reject code s.
Proof.
  unfold onConnection.
  assert (Hrej : forall c, sockets (reject c s) !! length (sockets s) = Some sk ->
            closeCode sk = Some code -> reject c s = reject code s).
  { intros c Hsk Hcode. destruct (reject_refusedWith c s) as [Hc _].
    rewrite Hc in Hsk. injection Hsk as <-. simpl in Hcode. by injection Hcode as ->. }
  destruct (negb (present apiKeyParam) || negb (present gameIdParam)); [apply Hrej|].
  destruct (getUserByApiKey _ _) as [u|]; [|apply Hrej].
  destruct (getGameById _ _) as [g0|]; [|apply Hrej].
  destruct (negb _ && negb _); [apply Hrej|].
  simpl. rewrite lookup_app_r; [|lia]. rewrite Nat.sub_diag. simpl.
  intros [= <-]. done.
Qed.

(** C3. The handshake refuses a connection with close code 4000 when the
    [apiKey] or the [gameId] parameter is absent or empty; otherwise with
    4001 when the key is the key of no user; otherwise with 4002 when no
    game has the identifier; otherwise with 4003 when the user is neither
    the owner nor listed as a player.  A socket closed with any code is not
    added to the registry, then or in any later state; nothing is ever sent
    on it; and its [close] event changes neither the registry nor the
    frames sent on any socket, so no event is broadcast on its behalf. *)
Theorem handshake_failures (s : State) (apiKeyParam gameIdParam : option string) :
  reachable s ->
  let s' := onConnection apiKeyParam gameIdParam s in
  let w := length (sockets s) in
  (present apiKeyParam = false \/ present gameIdParam = false -> refusedWith 4000 s s')
  /\ (forall key gameId,
        apiKeyParam = Some key -> gameIdParam = Some gameId -> key <> "" -> gameId <> "" ->
        ((forall u, u ∈ users s -> apiKey u <> key) -> refusedWith 4001 s s')
        /\ forall user, getUserByApiKey key (users s) = Some user ->
             ((forall g, g ∈ games s -> game_id g <> gameId) -> refusedWith 4002 s s')
             /\ forall game, getGameById gameId (games s) = Some game ->
                  user_id user ∉ map player_id (players game) ->
                  ownerId game <> user_id user ->
                  refusedWith 4003 s s')
  /\ (forall sk code,
        sockets s' !! w = Some sk -> closeCode sk = Some code ->
        refusedWith code s s'
        /\ forall actions, admissibleRun s' actions = true ->
             let s'' := run s' actions in
             (forall g, w ∉ registeredFor s'' g)
             /\ sentOn s'' w = []
             /\ gameConnections (onCloseEvent w s'') = gameConnections s''
             /\ forall w', sentOn (onCloseEvent w s'') w' = sentOn s'' w').
Proof.
  intros Hreach s' w. split; [|split].
  - intros Hmiss. subst s'. unfold onConnection.
    assert (negb (present apiKeyParam) || negb (present gameIdParam) = true) as ->.
    { destruct Hmiss as [-> | ->]; simpl; [done | apply orb_true_r]. }
    apply reject_refusedWith.
  - intros key gameId -> -> Hkey Hgid. subst s'. unfold onConnection. simpl.
    apply eqb_false in Hkey, Hgid. rewrite Hkey, Hgid. simpl. split.
    + intros Hno. apply getUserByApiKey_None in Hno. rewrite Hno.
      apply reject_refusedWith.
    + intros user ->. split.
      * intros Hno. apply getGameById_None in Hno. rewrite Hno. apply reject_refusedWith.
      * intros game -> Hnp Hno.
        pose proof (proj2 (guard_denies game user) (conj Hnp Hno)) as Hg.
        unfold currentUserIsPlayer, currentUserIsOwner in Hg. rewrite Hg.
        apply reject_refusedWith.
  - intros sk code Hsk Hcode.
    pose proof (closed_with_code _ _ _ _ _ Hsk Hcode) as Hrej. fold s' in Hrej.
    pose proof (reject_refusedWith code s) as Href. rewrite <- Hrej in Href.
    split; [exact Href|].
    intros actions Hadm s''. destruct Href as [Hw _]. fold w in Hw.
    destruct (run_frozen actions s' w _ Hw) as (sk'' & Hw'' & Hs & Hon & _);
      [simpl; unfold CLOSING, OPEN; lia|].
    fold s'' in Hw''. simpl in Hs, Hon.
    assert (Hreach'' : reachable s'').
    { apply reachable_run; [|done].
      apply (reachable_next s (Connect apiKeyParam gameIdParam)); done. }
    split; [|split; [|split]].
    + intros g. eapply not_registered; [by apply reachable_registryOk | exact Hw'' | by left].
    + unfold sentOn. by rewrite Hw'', Hs.
    + unfold onCloseEvent. rewrite Hw'', Hon. done.
    + intros w'. unfold onCloseEvent, sentOn. rewrite Hw'', Hon. simpl.
      destruct (decide (w = w')) as [<-|Hne].
      * rewrite list_lookup_insert_eq; [|by eapply lookup_lt_Some]. by rewrite Hw''.
      * by rewrite list_lookup_insert_ne.
Qed.

(** Bob is registered but is neither the owner nor a player of [g1]. *)
Lemma handshake_failures_witness :
  refusedWith 4003 sample (onConnection (Some bobKey) (Some "g1") sample).
Proof.
  refine (proj2 (proj2 (proj1 (proj2 (handshake_failures sample (Some bobKey) (Some "g1")
            sample_reachable)) bobKey "g1" eq_refl eq_refl _ _) bob _) _ _ _ _);
    try (by vm_compute).
  apply elemb_false. by vm_compute.
Defined.

(** ** Closing a registered socket *)

Lemma elem_of_delete_NoDup (l : list nat) (i w x : nat) :
  NoDup l -> l !! i = Some w -> x ∈ delete i l <-> x ∈ l /\ x <> w.
Proof.
  intros Hnd Hi. split.
  - intros Hx. split; [by eapply list_elem_of_delete_inv|]. intros ->.
    apply list_elem_of_lookup in Hx as (j & Hj).
    destruct (decide (j < i)).
    + rewrite list_lookup_delete_lt in Hj; [|done].
      pose proof (NoDup_lookup _ _ _ _ Hnd Hj Hi). lia.
    + rewrite list_lookup_delete_ge in Hj; [|lia].
      pose proof (NoDup_lookup _ _ _ _ Hnd Hj Hi). lia.
  - intros [Hx Hne]. apply list_elem_of_lookup in Hx as (j & Hj).
    apply list_elem_of_lookup. destruct (decide (j < i)).
    + exists j. by rewrite list_lookup_delete_lt.
    + assert (j <> i) by (intros ->; congruence).
      exists (j - 1). rewrite list_lookup_delete_ge; [|lia].
      by replace (S (j - 1)) with j by lia.
Qed.

Lemma sentOn_insert_closed (s : State) (conns : gmap string (list Conn)) (w w' : nat)
    (sk : Socket) :
  sockets s !! w = Some sk ->
  sentOn (mkState (users s) (games s) conns
            (<[w := mkSocket CLOSED (closeCode sk) (sent sk) (onClose sk)]> (sockets s))) w'
  = sentOn s w'.
Proof.
  intros Hw. unfold sentOn. simpl. destruct (decide (w = w')) as [<-|Hne].
  - rewrite list_lookup_insert_eq; [|by eapply lookup_lt_Some]. by rewrite Hw.
  - by rewrite list_lookup_insert_ne.
Qed.

Lemma isOpen_insert_closed (socks : list Socket) (w w' : nat) (sk : Socket) :
  w' <> w ->
  isOpen (<[w := sk]> socks) w' = isOpen socks w'.
Proof. intros Hne. unfold isOpen. by rewrite list_lookup_insert_ne. Qed.

(** The amended C2. When the socket of a registered connection closes:
    the [close] event is one the socket can still emit; the connection
    leaves the registry and every other entry stays; in no later state is
    the socket registered again, and nothing is ever sent on it again, so no
    later broadcast delivers to it; and the player-disconnected event,
    carrying the username of the closed connection, is sent exactly once to
    each connection that remains registered for the game and whose socket
    is open, and to no other socket. *)
Theorem close_unregisters_and_notifies (s : State) (w : nat) (gameId : string) :
  reachable s ->
  w ∈ registeredFor s gameId ->
  let s' := next s (CloseEvent w) in
  admissible s (CloseEvent w) = true
  /\ (forall g, w ∉ registeredFor s' g)
  /\ (forall g w', w' <> w -> w' ∈ registeredFor s' g <-> w' ∈ registeredFor s g)
  /\ (forall actions, admissibleRun s' actions = true ->
        (forall g, w ∉ registeredFor (run s' actions) g)
        /\ sentOn (run s' actions) w = sentOn s w)
  /\ exists c, c ∈ default [] (gameConnections s !! gameId) /\ ws c = w
       /\ forall w',
            sentOn s' w' =
            sentOn s w' ++
              (if isOpen (sockets s) w' && bool_decide (w' ∈ registeredFor s' gameId)
               then [EvPlayerDisconnected (conn_username c)] else []).
Proof.
  intros Hreach Hreg s'.
  pose proof (reachable_registryOk s Hreach) as Hok.
  pose proof Hreg as Hreg0.
  unfold registeredFor in Hreg. apply list_elem_of_fmap in Hreg as (c & Hwc & Hc).
  destruct (gameConnections s !! gameId) as [l|] eqn:Hl; [|by apply elem_of_nil in Hc].
  simpl in Hc. destruct (Hok _ _ Hl) as [Hnd Hent].
  destruct (Hent _ Hc) as (sk & u & Hw & Hrs & Hon & Hname & _). rewrite <- Hwc in Hw.
  destruct (findIndex (fun c => (ws c =? w)%nat) l) as [i|] eqn:Hi.
  2: { apply findIndex_ws_None in Hi. exfalso. apply Hi. rewrite Hwc.
       apply list_elem_of_fmap. by exists c. }
  pose proof (findIndex_ws w l i Hi) as Hiw.
  set (s1 := mkState (users s) (games s) (<[gameId := splice1 i l]> (gameConnections s))
               (<[w := mkSocket CLOSED (closeCode sk) (sent sk) (onClose sk)]> (sockets s))).
  assert (Hs' : s' = withSockets s1
            (broadcastToGame gameId (EvPlayerDisconnected (username u))
               (gameConnections s1) (sockets s1))).
  { subst s' s1. simpl. unfold onCloseEvent. by rewrite Hw, Hon, Hl, Hi. }
  assert (Hadm : admissible s (CloseEvent w) = true).
  { simpl. rewrite Hw. by apply negb_true_iff, Nat.eqb_neq. }
  assert (Hreach' : reachable s') by by apply reachable_next.
  assert (Hregs : forall g, registeredFor s' g =
            if decide (g = gameId) then delete i (registeredFor s gameId)
            else registeredFor s g).
  { intros g. rewrite Hs'. unfold registeredFor. simpl. case_decide as Hg.
    - subst g. rewrite lookup_insert_eq, Hl. simpl. unfold splice1.
      by rewrite list_fmap_delete.
    - by rewrite lookup_insert_ne. }
  assert (Hmem : forall w', w' ∈ registeredFor s' gameId <->
                            w' ∈ registeredFor s gameId /\ w' <> w).
  { intros w'. rewrite Hregs. rewrite decide_True; [|done].
    apply elem_of_delete_NoDup; [by apply registeredFor_NoDup|].
    unfold registeredFor. by rewrite Hl. }
  assert (Hclosed : exists sk', sockets s' !! w = Some sk' /\ readyState sk' = CLOSED /\
                                sent sk' = sent sk).
  { rewrite Hs'. simpl. erewrite broadcast_lookup.
    2: { apply list_lookup_insert_eq. by eapply lookup_lt_Some. }
    simpl. eexists. split; [done|]. simpl. split; [done|]. by rewrite app_nil_r. }
  destruct Hclosed as (sk' & Hw' & Hrs' & Hsent').
  split; [done|]. split; [|split; [|split]].
  - intros g. eapply not_registered; [by apply reachable_registryOk | exact Hw' | by right].
  - intros g w' Hne. destruct (decide (g = gameId)) as [->|Hg].
    + rewrite Hmem. tauto.
    + rewrite Hregs. by rewrite decide_False.
  - intros actions Hrun.
    destruct (run_frozen actions s' w sk' Hw') as (sk'' & Hw'' & Hs & _ & _ & _ & Hcl).
    { rewrite Hrs'. unfold CLOSED, OPEN. lia. }
    split.
    + intros g. eapply not_registered;
        [by apply reachable_registryOk, reachable_run | exact Hw'' | right; by apply Hcl].
    + unfold sentOn. by rewrite Hw'', Hs, Hsent', Hw.
  - exists c. split; [done|]. split; [done|]. intros w'.
    assert (Hsame : registeredFor s1 gameId = registeredFor s' gameId) by by rewrite Hs'.
    rewrite Hs' at 1. rewrite broadcast_sentOn.
    2: { rewrite Hsame. apply registeredFor_NoDup. by apply reachable_registryOk. }
    unfold s1 at 1. rewrite sentOn_insert_closed; [|done]. f_equal.
    rewrite Hname, Hsame. unfold s1. simpl sockets.
    destruct (decide (w' = w)) as [->|Hne].
    + rewrite (bool_decide_eq_false_2 (w ∈ registeredFor s' gameId)).
      * by rewrite !andb_false_r.
      * rewrite Hmem. tauto.
    + by rewrite isOpen_insert_closed.
Qed.

Lemma close_unregisters_and_notifies_witness :
  sentOn (next sample (CloseEvent 0)) 1 = sentOn sample 1 ++ [EvPlayerDisconnected "alice"].
Proof.
  destruct (close_unregisters_and_notifies sample 0 "g1" sample_reachable)
    as (_ & _ & _ & _ & c & Hc & Hw & Hsent).
  { apply (bool_decide_unpack _). by vm_compute. }
  rewrite Hsent.
  assert (conn_username c = "alice") as ->; [|by vm_compute].
  assert (default [] (gameConnections sample !! "g1") =
          [mkConn 0 "u-alice" "alice"; mkConn 1 "u-alice" "alice"]) as Hl by by vm_compute.
  rewrite Hl in Hc.
  apply elem_of_cons in Hc as [->|Hc]; [done|].
  apply list_elem_of_singleton in Hc. by subst c.
Defined.

(** C2 as stated fails.  After the sample session socket 1 starts closing
    and then socket 0 closes: socket 1 is still registered for [g1] when the
    player-disconnected event is broadcast, yet nothing is sent on it. *)
Lemma close_skips_socket_that_is_not_open :
  let s := run init (session ++ [StartClosing 1]) in
  let s' := next s (CloseEvent 0) in
  admissibleRun init (session ++ [StartClosing 1; CloseEvent 0]) = true
  /\ registeredFor s "g1" = [0; 1]
  /\ registeredFor s' "g1" = [1]
  /\ isOpen (sockets s) 1 = false
  /\ sentOn s' 1 = sentOn s 1.
Proof. by vm_compute. Qed.

(** ** The effect of a step on the store *)

Lemma app_storeEffect (header : option string) (req : Request) (d : Draws) (s : State) :
  storeEffect d s (app header req d s).2.
Proof.
  unfold_routes. unfold_store.
  destruct req; repeat break_match; simplify_eq; simpl;
    first [ by apply effect_none
          | by eapply effect_user
          | by eapply effect_game
          | by eapply effect_delete
          | eapply effect_edit; [|done|done]; by constructor ].
Qed.

(** Only requests change the store. *)
Lemma next_store (s : State) (a : Action) :
  (exists header req d, a = Http header req d) \/
  (users (next s a) = users s /\ games (next s a) = games s).
Proof.
  destruct a as [header req d|apiKeyParam gameIdParam|w|w]; simpl.
  - left. eauto.
  - right. unfold onConnection, reject. by repeat break_match.
  - right. unfold startClosing. by repeat break_match.
  - right. unfold onCloseEvent. by repeat break_match.
Qed.

(** ** The store invariant *)

Lemma allIds_user (s : State) (u : User) : u ∈ users s -> user_id u ∈ allIds s.
Proof.
  intros Hu. unfold allIds. apply elem_of_app. left.
  apply list_elem_of_fmap. by exists u.
Qed.

Lemma allIds_game (s : State) (g : Game) (x : string) :
  g ∈ games s -> x ∈ gameIds g -> x ∈ allIds s.
Proof.
  intros Hg Hx. unfold allIds. apply elem_of_app. right.
  apply list_elem_of_In, in_concat. exists (gameIds g).
  split; [|by apply list_elem_of_In]. apply in_map. by apply list_elem_of_In.
Qed.

Lemma allIds_player (s : State) (g : Game) (p : Player) :
  g ∈ games s -> p ∈ players g -> player_id p ∈ allIds s.
Proof.
  intros Hg Hp. apply (allIds_game s g); [done|]. unfold gameIds.
  apply list_elem_of_further, elem_of_app. left. apply list_elem_of_fmap. by exists p.
Qed.

Lemma allIds_move (s : State) (g : Game) (m : Move) :
  g ∈ games s -> m ∈ moves g -> move_id m ∈ allIds s.
Proof.
  intros Hg Hm. apply (allIds_game s g); [done|]. unfold gameIds.
  apply list_elem_of_further, elem_of_app. right. apply list_elem_of_fmap. by exists m.
Qed.

Lemma fresh_spec (s : State) (d : Draws) :
  fresh s d = true -> (uuid1 d ∉ allIds s) /\ (uuid3 d ∉ allIds s).
Proof.
  unfold fresh. rewrite !andb_true_iff, !negb_true_iff, !elemb_false. tauto.
Qed.

Lemma gameOk_edit (s : State) (d : Draws) (f : Game -> Game) (g : Game) :
  fresh s d = true -> gameEdit d f -> g ∈ games s ->
  gameOk (users s) g -> gameOk (users s) (f g).
Proof.
  intros Hfresh Hf Hg [Hmoves Hplayers]. apply fresh_spec in Hfresh as [Hu1 _].
  destruct Hf as [updates|nm|index|pid dat]; split; simpl; try done.
  - intros p Hp. apply elem_of_app in Hp as [Hp|Hp]; [by apply Hplayers|].
    apply list_elem_of_singleton in Hp. subst p. simpl.
    intros Hin. apply list_elem_of_fmap in Hin as (u & Hid & Hu).
    apply Hu1. rewrite Hid. by apply allIds_user.
  - intros p Hp. apply Hplayers. unfold splice1 in Hp. by eapply list_elem_of_delete_inv.
  - rewrite map_app. simpl. apply NoDup_app. split; [done|]. split; [|apply NoDup_singleton].
    intros x Hx Hx'. apply list_elem_of_singleton in Hx'. subst x.
    apply list_elem_of_fmap in Hx as (m & Hid & Hm).
    apply Hu1. rewrite Hid. by eapply allIds_move.
Qed.

Lemma map_game_id_modifyFirst (p : Game -> bool) (f : Game -> Game) (l : list Game) :
  (forall g, game_id (f g) = game_id g) ->
  map game_id (modifyFirst p f l) = map game_id l.
Proof.
  intros Hf. induction l as [|x rest IH]; simpl; [done|].
  destruct (p x); simpl; [by rewrite Hf | by rewrite IH].
Qed.

Lemma gameEdit_game_id (d : Draws) (f : Game -> Game) (g : Game) :
  gameEdit d f -> game_id (f g) = game_id g.
Proof. by intros [updates|nm|index|pid dat]. Qed.

Lemma storeOk_effect (d : Draws) (s s' : State) :
  storeOk s -> fresh s d = true -> storeEffect d s s' -> storeOk s'.
Proof.
  intros (Hgames & Husers & Hids) Hfresh Heff. unfold storeOk.
  destruct Heff as [Hu Hg|nm Hnm Hu Hg|uid nm Hu Hg|gameId f Hf Hu Hg|index Hu Hg];
    rewrite Hu, Hg.
  - done.
  - apply fresh_spec in Hfresh as [_ Hu3].
    apply invalidName_false in Hnm as (str & -> & Hne). split; [|split; [|done]].
    + rewrite Forall_forall in Hgames |- *. intros g Hin.
      destruct (Hgames g Hin) as [Hmoves Hplayers]. split; [done|].
      intros p Hp. rewrite map_app. simpl. intros Hx.
      apply elem_of_app in Hx as [Hx|Hx]; [by apply (Hplayers p)|].
      apply list_elem_of_singleton in Hx. apply Hu3. rewrite <- Hx.
      by eapply allIds_player.
    + apply Forall_app. split; [done|]. apply Forall_singleton.
      split; simpl; [apply trim_idem | done].
  - apply fresh_spec in Hfresh as [Hu1 _]. split; [|split; [done|]].
    + apply Forall_app. split; [done|]. apply Forall_singleton.
      split; simpl; [apply NoDup_nil_2|]. intros p Hp. by apply elem_of_nil in Hp.
    + rewrite map_app. simpl. apply NoDup_app. split; [done|].
      split; [|apply NoDup_singleton].
      intros x Hx Hx'. apply list_elem_of_singleton in Hx'. subst x.
      apply list_elem_of_fmap in Hx as (g & Hid & Hg'). apply Hu1. rewrite Hid.
      apply (allIds_game s g); [done|]. apply list_elem_of_here.
  - split; [|split; [done|]].
    + rewrite Forall_forall in Hgames |- *. intros y Hy.
      apply elem_of_modifyFirst in Hy as [Hy|(x & Hx & _ & ->)]; [by apply Hgames|].
      eapply gameOk_edit; [done..|]. by apply Hgames.
    + rewrite map_game_id_modifyFirst; [done|].
      intros g. by eapply gameEdit_game_id.
  - split; [|split; [done|]].
    + rewrite Forall_forall in Hgames |- *. intros y Hy.
      apply Hgames. unfold splice1 in Hy. by eapply list_elem_of_delete_inv.
    + unfold splice1. change (map game_id (delete index (games s)))
        with (game_id <$> delete index (games s)).
      rewrite list_fmap_delete. eapply sublist_NoDup; [exact Hids | apply sublist_delete].
Qed.

Lemma storeOk_next (s : State) (a : Action) :
  storeOk s -> admissible s a = true -> storeOk (next s a).
Proof.
  intros Hok Hadm. destruct (next_store s a) as [(header & req & d & ->)|[Hu Hg]].
  - simpl in *. eapply storeOk_effect; [done..|]. apply app_storeEffect.
  - unfold storeOk. by rewrite Hu, Hg.
Qed.

Lemma reachable_storeOk (s : State) : reachable s -> storeOk s.
Proof.
  induction 1 as [|s a Hs IH Hadm].
  - split; [apply Forall_nil_2 | split; [apply Forall_nil_2 | apply NoDup_nil_2]].
  - by apply storeOk_next.
Qed.

(** ** What no step changes in a game *)

Lemma gameEdit_identity (d : Draws) (f : Game -> Game) (g : Game) :
  gameEdit d f -> sameIdentity g (f g).
Proof.
  intros [updates|nm|index|pid dat]; repeat split; simpl; try done.
  by apply prefix_app_r.
Qed.

(** No step of the server changes the identifier, the owner, the creation
    time or the recorded moves of a game: every game of the next state is a
    game of the current state with these intact, or the game a request has
    just created, under the identifier it drew. *)
Lemma next_identity (s : State) (a : Action) (g' : Game) :
  g' ∈ games (next s a) ->
  (exists g, g ∈ games s /\ sameIdentity g g') \/
  (exists header req d, a = Http header req d /\ game_id g' = uuid1 d /\
                        games (next s a) = games s ++ [g']).
Proof.
  intros Hin. destruct (next_store s a) as [(header & req & d & ->)|[_ Hg]].
  2: { left. exists g'. rewrite Hg in Hin. by split. }
  simpl in *.
  destruct (app_storeEffect header req d s) as [_ Hg|nm _ _ Hg|uid nm _ Hg|gid f Hf _ Hg|i _ Hg];
    rewrite Hg in Hin |- *.
  - left. by exists g'.
  - left. by exists g'.
  - apply elem_of_app in Hin as [Hin|Hin]; [left; by exists g'|].
    apply list_elem_of_singleton in Hin. subst g'. right. by exists header, req, d.
  - left. apply elem_of_modifyFirst in Hin as [Hin|(x & Hx & _ & ->)]; [by exists g'|].
    exists x. split; [done|]. by eapply gameEdit_identity.
  - left. exists g'. split; [|done]. unfold splice1 in Hin.
    by eapply list_elem_of_delete_inv.
Qed.

(** In a reachable state a game found by its identifier keeps its recorded
    moves through any step that leaves a game with that identifier. *)
Lemma next_moves_prefix (s : State) (a : Action) (gameId : string) (g g' : Game) :
  reachable s -> admissible s a = true ->
  getGameById gameId (games s) = Some g ->
  g' ∈ games (next s a) -> game_id g' = gameId ->
  moves g `prefix_of` moves g'.
Proof.
  intros Hreach Hadm Hg Hin Hid.
  destruct (reachable_storeOk s Hreach) as (_ & _ & Hids).
  apply find_Some_elem in Hg as [Hg Hgid]. apply eqb_true in Hgid.
  destruct (next_identity s a g' Hin) as [(g0 & Hg0 & Hid0 & _ & _ & Hpre)|Hnew].
  - assert (g0 = g) as ->; [|done].
    apply list_elem_of_lookup in Hg0 as (i & Hi).
    apply list_elem_of_lookup in Hg as (j & Hj).
    assert (i = j) as ->; [|congruence].
    eapply (NoDup_lookup _ i j gameId Hids); rewrite list_lookup_fmap.
    + rewrite Hi. simpl. congruence.
    + rewrite Hj. simpl. congruence.
  - destruct Hnew as (header & req & d & -> & Hnewid & _). simpl in Hadm.
    apply fresh_spec in Hadm as [Hu1 _]. exfalso. apply Hu1.
    rewrite <- Hnewid, Hid, <- Hgid. apply (allIds_game s g); [done|].
    apply list_elem_of_here.
Qed.

(** ** Players and users *)

(** C10. In every reachable state no player of any game has the
    identifier of a user.  So a user passes the owner-or-player guard of a
    game exactly when the user owns it; a user who does not own the game is
    answered 403 by POST and GET /games/:gameId/moves and is refused by the
    handshake with code 4003. *)
Theorem players_are_not_users (s : State) :
  reachable s ->
  (forall g p u, g ∈ games s -> p ∈ players g -> u ∈ users s -> player_id p <> user_id u)
  /\ (forall g u, g ∈ games s -> u ∈ users s ->
        negb (currentUserIsPlayer g u) && negb (currentUserIsOwner g u) = false <->
        ownerId g = user_id u)
  /\ (forall key gameId game user body d,
        key <> "" -> gameId <> "" ->
        getUserByApiKey key (users s) = Some user ->
        getGameById gameId (games s) = Some game ->
        ownerId game <> user_id user ->
        statusCode (app (Some key) (PostMoves gameId body) d s).1 = 403
        /\ statusCode (app (Some key) (GetMoves gameId) d s).1 = 403
        /\ refusedWith 4003 s (onConnection (Some key) (Some gameId) s)).
Proof.
  intros Hreach. destruct (reachable_storeOk s Hreach) as [Hgames _].
  rewrite Forall_forall in Hgames.
  assert (Hdisj : forall g p u, g ∈ games s -> p ∈ players g -> u ∈ users s ->
                    player_id p <> user_id u).
  { intros g p u Hg Hp Hu Heq. destruct (Hgames g Hg) as [_ Hplayers].
    apply (Hplayers p Hp). rewrite Heq. apply list_elem_of_fmap. by exists u. }
  assert (Hguard : forall g u, g ∈ games s -> u ∈ users s ->
            negb (currentUserIsPlayer g u) && negb (currentUserIsOwner g u) = false <->
            ownerId g = user_id u).
  { intros g u Hg Hu. rewrite guard_admits. split; [|by right].
    intros [Hin|Ho]; [|done]. apply list_elem_of_fmap in Hin as (p & Heq & Hp).
    by destruct (Hdisj g p u Hg Hp Hu). }
  split; [done|]. split; [done|].
  intros key gameId game user body d Hkey Hgid Huser Hgame Hno.
  assert (Hu : user ∈ users s) by by apply find_Some_elem in Huser as [? _].
  assert (Hg : game ∈ games s) by by apply find_Some_elem in Hgame as [? _].
  assert (Hdeny : negb (currentUserIsPlayer game user) &&
                  negb (currentUserIsOwner game user) = true).
  { destruct (negb (currentUserIsPlayer game user) &&
              negb (currentUserIsOwner game user)) eqn:E; [done|].
    by apply Hguard in E. }
  apply eqb_false in Hkey, Hgid.
  split; [|split].
  - unfold app, apiKeyAuth. simpl. rewrite Hkey. simpl. rewrite Huser. simpl.
    unfold postMoves. by rewrite Hgame, Hdeny.
  - unfold app, apiKeyAuth. simpl. rewrite Hkey. simpl. rewrite Huser. simpl.
    unfold getMoves. by rewrite Hgame, Hdeny.
  - unfold onConnection. simpl. rewrite Hkey, Hgid. simpl. rewrite Huser, Hgame.
    unfold currentUserIsPlayer, currentUserIsOwner in Hdeny. rewrite Hdeny.
    apply reject_refusedWith.
Qed.

Lemma players_are_not_users_witness :
  statusCode (app (Some bobKey) (GetMoves "g1") (draws "" "" "" "") sample).1 = 403.
Proof.
  refine (proj1 (proj2 (proj2 (proj2 (players_are_not_users sample sample_reachable))
            bobKey "g1" _ bob (moveBody "p1") (draws "" "" "" "") _ _ _ _ _)));
    by vm_compute.
Defined.

(** ** Registering a username twice *)

Lemma registerUser_duplicate (d : Draws) (uname : string) (us : list User) :
  uname ∈ map username us -> registerUser d uname us = Throw "User already exists".
Proof.
  intros Hin. unfold registerUser.
  destruct (List.find _ us) eqn:Hfind; [done|].
  apply list_elem_of_fmap in Hin as (u & -> & Hu).
  rewrite find_None_elem in Hfind. specialize (Hfind u Hu). simpl in Hfind.
  by rewrite String.eqb_refl in Hfind.
Qed.

(** A registration that succeeds makes the same registration fail. *)
Lemma register_twice (body : JsValue) (d d' : Draws) (s : State) :
  statusCode (postRegister body d s).1 = 201 ->
  postRegister body d' (postRegister body d s).2 =
    (mkResponse 400 (PError "User already exists"), (postRegister body d s).2).
Proof.
  unfold postRegister.
  destruct (destructure body "username") as [nm|]; [|simpl; lia].
  destruct (invalidName nm); [simpl; lia|].
  destruct (registerUser d (trimmed nm) (users s)) as [[user written]|] eqn:Hreg;
    [|simpl; lia].
  intros _. simpl. rewrite registerUser_duplicate; [done|].
  unfold registerUser in Hreg. destruct (List.find _ (users s)); [done|].
  injection Hreg as <- <-. rewrite map_app. apply elem_of_app. right. simpl.
  apply list_elem_of_here.
Qed.

(** C6. Whatever the Users collection holds, [registerUser] called with a
    username that is already in it throws and writes nothing; and in every
    reachable state a POST /auth/register whose username, once trimmed, is
    the username of a registered user is answered 400 with the error
    message of the exception, and leaves the state, the Users collection
    included, as it was.  A stored username is its own trimmed form, so
    this covers the registration of a stored username as it is. *)
Theorem duplicate_registration (s : State) (u : User) (header : option string)
    (body : JsValue) (str : string) (d : Draws) :
  u ∈ users s ->
  registerUser d (username u) (users s) = Throw "User already exists"
  /\ (reachable s ->
      trim (username u) = username u
      /\ (destructure body "username" = Some (JStr str) ->
          trim str = username u ->
          app header (PostRegister body) d s =
            (mkResponse 400 (PError "User already exists"), s))).
Proof.
  intros Hu.
  assert (Hthrow : registerUser d (username u) (users s) = Throw "User already exists").
  { apply registerUser_duplicate, list_elem_of_fmap. by exists u. }
  split; [done|]. intros Hreach.
  destruct (reachable_storeOk s Hreach) as (_ & Husers & _).
  rewrite Forall_forall in Husers. destruct (Husers u Hu) as [Htrim Hne].
  split; [done|]. intros Hbody Hstr.
  unfold app, postRegister. rewrite Hbody.
  assert (invalidName (JStr str) = false) as ->.
  { apply invalidName_false. exists str. split; [done|]. by rewrite Hstr. }
  unfold trimmed. simpl. by rewrite Hstr, Hthrow.
Qed.

Lemma duplicate_registration_witness :
  app None (PostRegister (field "username" (JStr "alice "))) (draws "k9" "k8" "u9" "t9") sample
  = (mkResponse 400 (PError "User already exists"), sample).
Proof.
  refine (proj2 (proj2 (duplicate_registration sample alice None
                   (field "username" (JStr "alice ")) "alice " (draws "k9" "k8" "u9" "t9") _)
                sample_reachable) eq_refl eq_refl).
  apply (list_elem_of_here alice [bob]).
Defined.

(** ** Recording moves *)

Lemma hasId_pushMove (gameId : string) (m : Move) (now : string) (g : Game) :
  hasId gameId (pushMove m now g) = hasId gameId g.
Proof. done. Qed.

(** A move submission answered 201 appends the move it asked for to the
    game and changes nothing else in it. *)
Lemma postMoves_created (header : option string) (gameId : string) (body : JsValue)
    (d : Draws) (s : State) (game : Game) :
  statusCode (app header (PostMoves gameId body) d s).1 = 201 ->
  getGameById gameId (games s) = Some game ->
  (app header (PostMoves gameId body) d s).1 =
    mkResponse 201 (PMoveAdded (Some (moveOf (header, body, d))))
  /\ getGameById gameId (games (app header (PostMoves gameId body) d s).2) =
       Some (pushMove (moveOf (header, body, d)) (now2 d) game).
Proof.
  intros Hstatus Hgame. revert Hstatus.
  unfold app, apiKeyAuth, gameRoutes, postMoves. rewrite Hgame.
  destruct (negb (present header)); [simpl; lia|].
  destruct (getUserByApiKey _ _) as [user|]; [|simpl; lia].
  destruct (negb _ && negb _); [simpl; lia|].
  destruct (destructure body "playerId") as [pid|] eqn:Hpid; [|simpl; lia].
  destruct (destructure body "data") as [dat|] eqn:Hdat; [|simpl; lia].
  destruct (negb (truthy pid) || negb (typeof pid =? "string")); [simpl; lia|].
  destruct (negb (truthy dat) || negb (typeof dat =? "object")); [simpl; lia|].
  destruct (List.find _ (players game)) as [player|]; [|simpl; lia].
  unfold addMoveToGame. unfold getGameById in Hgame. rewrite Hgame.
  intros _. simpl. rewrite Hpid, Hdat. simpl. split; [done|].
  unfold getGameById. rewrite find_modifyFirst; [|done]. by rewrite Hgame.
Qed.

Lemma submitAll_created (gameId : string) (subs : list Submission) :
  forall (s : State) (game : Game),
    getGameById gameId (games s) = Some game ->
    Forall (fun r => statusCode r = 201) (submitAll gameId subs s) ->
    submitAll gameId subs s =
      map (fun sub => mkResponse 201 (PMoveAdded (Some (moveOf sub)))) subs
    /\ exists game',
         getGameById gameId (games (run s (map (submitAction gameId) subs))) = Some game'
         /\ moves game' = moves game ++ map moveOf subs
         /\ players game' = players game /\ ownerId game' = ownerId game.
Proof.
  induction subs as [|[[header body] d] rest IH]; intros s game Hgame Hall.
  - simpl. split; [done|]. exists game. by rewrite app_nil_r.
  - cbn [submitAll submitResponse submitAction map run foldl next] in Hall |- *.
    apply Forall_cons in Hall as [Hfirst Hrest].
    destruct (postMoves_created header gameId body d s game Hfirst Hgame) as [Hres Hg'].
    destruct (IH _ _ Hg' Hrest) as [Hresps (game' & Hfinal & Hmoves & Hplayers & Howner)].
    split; [by rewrite Hres, Hresps|].
    exists game'. split; [done|]. split; [|done].
    rewrite Hmoves. simpl. by rewrite <- app_assoc.
Qed.

(** C5. Take a game and any number of move submissions made to it one
    after the other, all answered 201.  Then the responses carry, in order,
    the moves submitted; the game's move list afterwards is its earlier list
    followed by these moves in submission order, so it has exactly as many
    more moves as there were submissions and every earlier move is still
    there, unaltered and in place; the identifiers of the listed moves are
    pairwise distinct; GET /games/:gameId/moves by the owner or a player
    returns this list with its length; and whatever step the server takes
    next, a game with this identifier still starts with these moves. *)
Theorem moves_append_in_order (s : State) (gameId : string) (game : Game)
    (subs : list Submission) :
  reachable s ->
  admissibleRun s (map (submitAction gameId) subs) = true ->
  getGameById gameId (games s) = Some game ->
  Forall (fun r => statusCode r = 201) (submitAll gameId subs s) ->
  let s' := run s (map (submitAction gameId) subs) in
  submitAll gameId subs s =
    map (fun sub => mkResponse 201 (PMoveAdded (Some (moveOf sub)))) subs
  /\ getGameMoves gameId (games s') = moves game ++ map moveOf subs
  /\ length (getGameMoves gameId (games s')) = length (moves game) + length subs
  /\ (moves game = [] -> length (getGameMoves gameId (games s')) = length subs)
  /\ NoDup (map move_id (getGameMoves gameId (games s')))
  /\ (forall user,
       ownerId game = user_id user \/ user_id user ∈ map player_id (players game) ->
       (getMoves user gameId s').1 =
         mkResponse 200 (PMoves gameId (length (moves game) + length subs)
                                (moves game ++ map moveOf subs)))
  /\ (forall a g',
       admissible s' a = true -> g' ∈ games (next s' a) -> game_id g' = gameId ->
       (moves game ++ map moveOf subs) `prefix_of` moves g').
Proof.
  intros Hreach Hadm Hgame Hall s'.
  destruct (submitAll_created gameId subs s game Hgame Hall)
    as [Hresps (game' & Hfinal & Hmoves & Hplayers & Howner)].
  fold s' in Hfinal.
  assert (Hlist : getGameMoves gameId (games s') = moves game ++ map moveOf subs).
  { unfold getGameMoves. by rewrite Hfinal. }
  assert (Hlen : length (getGameMoves gameId (games s')) = length (moves game) + length subs).
  { by rewrite Hlist, length_app, length_map. }
  split; [done|]. split; [done|]. split; [done|]. split; [|split; [|split]].
  - intros Hnil. by rewrite Hlen, Hnil.
  - destruct (reachable_storeOk s') as [Hgames _]; [by apply reachable_run|].
    rewrite Forall_forall in Hgames.
    apply find_Some_elem in Hfinal as [Hin _].
    destruct (Hgames game' Hin) as [Hnd _]. by rewrite Hlist, <- Hmoves.
  - intros user Hauth. unfold getMoves. rewrite Hfinal.
    assert (negb (currentUserIsPlayer game' user) &&
            negb (currentUserIsOwner game' user) = false) as ->.
    { apply guard_admits. rewrite Hplayers, Howner. tauto. }
    simpl. by rewrite Hlen, Hlist.
  - intros a g' Hadm' Hin Hid. rewrite <- Hmoves.
    eapply (next_moves_prefix s' a gameId game' g'); try done.
    by apply reachable_run.
Qed.

Lemma moves_append_in_order_witness :
  getGameMoves "g1"
    (games (run sample
       [Http (Some aliceKey) (PostMoves "g1" (moveBody "p1")) (draws "m1" "x3" "y3" "t5");
        Http (Some aliceKey) (PostMoves "g1" (moveBody "p1")) (draws "m2" "x4" "y4" "t6")]))
  = [mkMove "m1" "p1" (JObj [("x", JNum 1)]) "t5";
     mkMove "m2" "p1" (JObj [("x", JNum 1)]) "t6"].
Proof.
  refine (proj1 (proj2 (moves_append_in_order sample "g1" sampleGame
            [(Some aliceKey, moveBody "p1", draws "m1" "x3" "y3" "t5");
             (Some aliceKey, moveBody "p1", draws "m2" "x4" "y4" "t6")]
            sample_reachable _ _ _))).
  - by vm_compute.
  - by vm_compute.
  - repeat constructor.
Defined.

(** ** Updating a game *)

(** C9. A PUT /games/:gameId request changes nothing but the [name], the
    [status] and the [updatedAt] of the first game with that identifier:
    the users, the registry and the sockets are as before; the collection
    has the same length; every game keeps its identifier, owner, players,
    moves and creation time; and every game other than that first match is
    unchanged.  This holds for the owner's request, the only one that
    reaches [updateGame], and for every other request, which changes
    nothing.  More generally no step of the server changes the owner of a
    game. *)
Theorem put_changes_name_and_status_only (s : State) (header : option string)
    (gameId : string) (body : JsValue) (d : Draws) :
  let s' := (app header (PutGame gameId body) d s).2 in
  users s' = users s /\ gameConnections s' = gameConnections s /\ sockets s' = sockets s
  /\ length (games s') = length (games s)
  /\ (forall j g, games s !! j = Some g ->
        exists g', games s' !! j = Some g'
          /\ game_id g' = game_id g /\ ownerId g' = ownerId g
          /\ players g' = players g /\ moves g' = moves g /\ createdAt g' = createdAt g
          /\ (findIndex (hasId gameId) (games s) <> Some j -> g' = g))
  /\ (forall a g', g' ∈ games (next s a) ->
        (exists g, g ∈ games s /\ game_id g' = game_id g /\ ownerId g' = ownerId g)
        \/ games (next s a) = games s ++ [g']).
Proof.
  intros s'.
  assert (Hcases : s' = s \/
            exists updates k,
              findIndex (hasId gameId) (games s) = Some k /\
              s' = withGames s (alter (fun g => assign g updates (now1 d)) k (games s))).
  { subst s'. unfold app, apiKeyAuth, gameRoutes, putGame, updateGame, getGameById.
    destruct (negb (present header)); [by left|].
    destruct (getUserByApiKey _ _) as [user|]; [|by left].
    destruct (List.find (hasId gameId) (games s)) as [game|] eqn:Hfind; [|by left].
    destruct (negb (ownerId game =? user_id user)); [by left|].
    destruct (destructure body "name") as [nm|]; [|by left].
    destruct (destructure body "status") as [st|]; [|by left].
    right. simpl. rewrite find_findIndex in Hfind.
    destruct (findIndex (hasId gameId) (games s)) as [k|] eqn:Hk; [|done].
    eexists _, k. split; [done|]. by rewrite (modifyFirst_alter _ _ _ k Hk). }
  split; [|split; [|split; [|split; [|split]]]].
  - destruct Hcases as [->|(updates & k & Hk & ->)]; done.
  - destruct Hcases as [->|(updates & k & Hk & ->)]; done.
  - destruct Hcases as [->|(updates & k & Hk & ->)]; done.
  - destruct Hcases as [->|(updates & k & Hk & ->)]; [done|]. simpl. apply length_alter.
  - intros j g Hj. destruct Hcases as [->|(updates & k & Hk & ->)].
    + exists g. by repeat split.
    + simpl. destruct (decide (k = j)) as [->|Hne].
      * rewrite list_lookup_alter_eq, Hj. simpl. eexists. split; [done|].
        repeat split; try done; intros Hno; by destruct Hno.
      * rewrite list_lookup_alter_ne; [|done]. exists g. by repeat split.
  - intros a g' Hin.
    destruct (next_identity s a g' Hin) as [(g & Hg & Hid & Ho & _)|(_ & _ & _ & _ & _ & Hnew)].
    + left. by exists g.
    + by right.
Qed.

(** Alice renames [g1]; the owner, the players and the identifier stay. *)
Lemma put_changes_name_and_status_only_witness :
  exists g', games (app (Some aliceKey) (PutGame "g1" (field "name" (JStr "H")))
                        (draws "" "" "" "t7") sample).2 !! 0 = Some g'
             /\ ownerId g' = "u-alice" /\ players g' = [mkPlayer "p1" "P" "t3"].
Proof.
  destruct (put_changes_name_and_status_only sample (Some aliceKey) "g1"
              (field "name" (JStr "H")) (draws "" "" "" "t7"))
    as (_ & _ & _ & _ & Hframe & _).
  destruct (Hframe 0 sampleGame eq_refl) as (g' & Hg' & _ & Ho & Hp & _).
  exists g'. split; [exact Hg'|]. split; [exact Ho | exact Hp].
Defined.

(** ** Submitting a move *)

Lemma isObject_spec (v : JsValue) :
  negb (truthy v) || negb (typeof v =? "object") = false <-> isObject v.
Proof.
  destruct v as [| |[]|z|str|items|fields]; simpl; rewrite ?orb_true_r; split; done.
Qed.

Lemma isString_spec (v : JsValue) :
  negb (truthy v) || negb (typeof v =? "string") = false <->
  exists pid, v = JStr pid /\ pid <> "".
Proof.
  destruct v as [| |b|z|str|items|fields]; simpl; rewrite ?orb_true_r, ?orb_false_r;
    try (split; [done | by intros (pid & H & _)]).
  rewrite negb_false_iff, negb_true_iff, eqb_false.
  split; [by exists str | by intros (pid & [= ->] & H)].
Qed.

Lemma find_player_None (pid : string) (ps : list Player) :
  List.find (fun p => player_id p =? pid) ps = None <-> pid ∉ map player_id ps.
Proof.
  rewrite find_None_elem. split.
  - intros H Hin. apply list_elem_of_fmap in Hin as (p & -> & Hp).
    specialize (H p Hp). simpl in H. by rewrite String.eqb_refl in H.
  - intros H p Hp. apply eqb_false. intros Heq. apply H. rewrite <- Heq.
    apply list_elem_of_fmap. by exists p.
Qed.

(** A request behind [apiKeyAuth] that carries the key of a stored user is
    handled by the route, with that user as [req.user]. *)
Lemma app_postMoves (s : State) (user : User) (key gameId : string) (body : JsValue)
    (d : Draws) :
  key <> "" -> getUserByApiKey key (users s) = Some user ->
  app (Some key) (PostMoves gameId body) d s = postMoves user gameId body d s.
Proof.
  intros Hkey Huser. apply eqb_false in Hkey.
  unfold app, apiKeyAuth. simpl. rewrite Hkey. simpl. by rewrite Huser.
Qed.

(** The checks of the handler of POST /games/:gameId/moves, in the order it
    makes them: the game exists, else 404; the user is the owner or listed
    as a player, else 403; [playerId] passes
    [!playerId || typeof playerId !== 'string'] and [data] passes
    [!data || typeof data !== 'object'], else 400; [playerId] is the
    identifier of a player of the game, else 404.  A refused request changes
    nothing.  Otherwise the answer is 201 with the new move, which is
    appended to the game, and the move event, carrying the move and the
    player's name, is broadcast to the game. *)
Lemma postMoves_checks (s : State) (user : User) (gameId : string) (body : JsValue)
    (d : Draws) :
  let r := postMoves user gameId body d s in
  (getGameById gameId (games s) = None ->
     r = (mkResponse 404 (PError "Game not found"), s))
  /\ forall game, getGameById gameId (games s) = Some game ->
       (user_id user ∉ map player_id (players game) -> ownerId game <> user_id user ->
          statusCode r.1 = 403 /\ r.2 = s)
       /\ (user_id user ∈ map player_id (players game) \/ ownerId game = user_id user ->
             ((forall pid dat, ~ wellFormedMove body pid dat) ->
                statusCode r.1 = 400 /\ r.2 = s)
             /\ forall pid dat, wellFormedMove body pid dat ->
                  (pid ∉ map player_id (players game) ->
                     r = (mkResponse 404 (PError "Player not found in this game"), s))
                  /\ forall player,
                       List.find (fun p => player_id p =? pid) (players game) = Some player ->
                       let move := mkMove (uuid1 d) pid dat (now1 d) in
                       r.1 = mkResponse 201 (PMoveAdded (Some move))
                       /\ users r.2 = users s
                       /\ games r.2 = modifyFirst (hasId gameId) (pushMove move (now2 d)) (games s)
                       /\ gameConnections r.2 = gameConnections s
                       /\ sockets r.2 =
                            broadcastToGame gameId
                              (EvMove gameId (Some move) (player_name player))
                              (gameConnections s) (sockets s)).
Proof.
  intros r. subst r. unfold postMoves. split; [by intros ->|].
  intros game Hgame. rewrite Hgame. split.
  - intros Hnp Hno. by rewrite (proj2 (guard_denies game user) (conj Hnp Hno)).
  - intros Hauth. rewrite (proj2 (guard_admits game user) Hauth). split.
    + intros Hbad.
      destruct (destructure body "playerId") as [pid|] eqn:Hpid; [|done].
      destruct (destructure body "data") as [dat|] eqn:Hdat; [|done].
      destruct (negb (truthy pid) || negb (typeof pid =? "string")) eqn:Hp; [done|].
      destruct (negb (truthy dat) || negb (typeof dat =? "object")) eqn:Hd; [done|].
      apply isString_spec in Hp as (str & -> & Hne). apply isObject_spec in Hd.
      by destruct (Hbad str dat).
    + intros pid dat (Hpid & Hne & Hdat & Hobj). rewrite Hpid, Hdat.
      rewrite (proj2 (isString_spec (JStr pid))); [|by exists pid].
      rewrite (proj2 (isObject_spec dat) Hobj). simpl asString. split.
      * intros Hno. apply find_player_None in Hno. by rewrite Hno.
      * intros player ->. unfold addMoveToGame. unfold getGameById in Hgame.
        rewrite Hgame. done.
Qed.

(** The moves of a game after [game.moves.push(move)]. *)
Lemma getGameMoves_pushMove (gameId : string) (move : Move) (now : string)
    (gs : list Game) (game : Game) :
  getGameById gameId gs = Some game ->
  getGameMoves gameId (modifyFirst (hasId gameId) (pushMove move now) gs) =
    moves game ++ [move].
Proof.
  intros Hgame. unfold getGameMoves, getGameById in *.
  rewrite find_modifyFirst; [|done]. by rewrite Hgame.
Qed.

(** C4. The owner of a game passes the owner-or-player guard whatever the
    player list holds, in particular when the owner's identifier is not in
    it.  On POST /games/:gameId/moves the owner is never answered 403 and
    the request goes on to the checks that follow the guard, which alone
    decide the answer: 400 for a body without a usable [playerId] and
    [data], 404 'Player not found in this game' when [playerId] names no
    player of the game, and otherwise 201 with the new move, which is
    appended to the game and broadcast.  The realtime handshake admits the
    owner, registering the connection and leaving the socket open. *)
Theorem owner_passes_guard (s : State) (user : User) (key gameId : string)
    (game : Game) (body : JsValue) (d : Draws) :
  key <> "" -> gameId <> "" ->
  getUserByApiKey key (users s) = Some user ->
  getGameById gameId (games s) = Some game ->
  ownerId game = user_id user ->
  let r := app (Some key) (PostMoves gameId body) d s in
  negb (currentUserIsPlayer game user) && negb (currentUserIsOwner game user) = false
  /\ statusCode r.1 <> 403
  /\ ((forall pid dat, ~ wellFormedMove body pid dat) ->
        statusCode r.1 = 400 /\ r.2 = s)
  /\ (forall pid dat, wellFormedMove body pid dat ->
        (pid ∉ map player_id (players game) ->
           r = (mkResponse 404 (PError "Player not found in this game"), s))
        /\ forall player,
             List.find (fun p => player_id p =? pid) (players game) = Some player ->
             let move := mkMove (uuid1 d) pid dat (now1 d) in
             r.1 = mkResponse 201 (PMoveAdded (Some move))
             /\ getGameMoves gameId (games r.2) = moves game ++ [move]
             /\ sockets r.2 =
                  broadcastToGame gameId (EvMove gameId (Some move) (player_name player))
                    (gameConnections s) (sockets s))
  /\ gameConnections (onConnection (Some key) (Some gameId) s) !! gameId =
       Some (default [] (gameConnections s !! gameId) ++
             [mkConn (length (sockets s)) (user_id user) (username user)])
  /\ sockets (onConnection (Some key) (Some gameId) s) !! length (sockets s) =
       Some (mkSocket OPEN None [EvConnected (name game) gameId (username user)]
                      (Some (gameId, user))).
Proof.
  intros Hkey Hgid Huser Hgame Hown r.
  assert (Hguard : negb (currentUserIsPlayer game user) &&
                   negb (currentUserIsOwner game user) = false).
  { apply guard_admits. by right. }
  assert (Hr : r = postMoves user gameId body d s) by by apply app_postMoves.
  destruct (postMoves_checks s user gameId body d) as [_ Hchecks].
  destruct (Hchecks game Hgame) as [_ Hadmitted].
  destruct (Hadmitted (or_intror Hown)) as [Hbad Hgood].
  rewrite <- Hr in Hbad, Hgood. clear Hchecks Hadmitted.
  apply eqb_false in Hkey, Hgid.
  split; [done|]. split; [|split; [|split; [|split]]].
  - rewrite Hr. unfold postMoves. rewrite Hgame, Hguard.
    destruct (destructure body "playerId") as [pid|]; [|simpl; lia].
    destruct (destructure body "data") as [dat|]; [|simpl; lia].
    destruct (negb (truthy pid) || negb (typeof pid =? "string")); [simpl; lia|].
    destruct (negb (truthy dat) || negb (typeof dat =? "object")); [simpl; lia|].
    destruct (List.find _ (players game)); [|simpl; lia].
    destruct (addMoveToGame d gameId (asString pid) dat (games s)). simpl. lia.
  - exact Hbad.
  - intros pid dat Hwf. destruct (Hgood pid dat Hwf) as [Hnone Hsome].
    split; [exact Hnone|].
    intros player Hplayer move.
    destruct (Hsome player Hplayer) as (Hres & _ & Hgames & _ & Hsocks).
    split; [exact Hres|]. split; [|exact Hsocks].
    rewrite Hgames. by apply getGameMoves_pushMove.
  - unfold onConnection. simpl. rewrite Hkey, Hgid. simpl. rewrite Huser, Hgame.
    unfold currentUserIsPlayer, currentUserIsOwner in Hguard. rewrite Hguard. simpl.
    by rewrite lookup_insert_eq.
  - unfold onConnection. simpl. rewrite Hkey, Hgid. simpl. rewrite Huser, Hgame.
    unfold currentUserIsPlayer, currentUserIsOwner in Hguard. rewrite Hguard. simpl.
    rewrite lookup_app_r; [|lia]. by rewrite Nat.sub_diag.
Qed.

(** In the sample session Alice owns [g1] and is not one of its players:
    her move for player [p1] is answered 201 and recorded, her move for a
    player the game does not have is answered 404 by the check after the
    guard, and her third socket is registered after the two she has. *)
Lemma owner_passes_guard_witness :
  (exists game, getGameById "g1" (games sample) = Some game /\
                user_id alice ∉ map player_id (players game))
  /\ (let r := app (Some aliceKey) (PostMoves "g1" (moveBody "p1"))
                   (draws "m1" "x" "y" "t") sample in
      r.1 = mkResponse 201 (PMoveAdded (Some (mkMove "m1" "p1" (JObj [("x", JNum 1)]) "t")))
      /\ getGameMoves "g1" (games r.2) = [mkMove "m1" "p1" (JObj [("x", JNum 1)]) "t"])
  /\ app (Some aliceKey) (PostMoves "g1" (moveBody "nobody")) (draws "m1" "x" "y" "t") sample
     = (mkResponse 404 (PError "Player not found in this game"), sample)
  /\ (ws <$> default [] (gameConnections (onConnection (Some aliceKey) (Some "g1") sample) !! "g1"))
     = [0; 1; 2].
Proof.
  assert (Hkey : aliceKey <> "") by done.
  assert (Hgid : "g1" <> "") by done.
  assert (Huser : getUserByApiKey aliceKey (users sample) = Some alice) by reflexivity.
  assert (Hgame : getGameById "g1" (games sample) = Some sampleGame) by reflexivity.
  assert (Hown : ownerId sampleGame = user_id alice) by reflexivity.
  split; [|split; [|split]].
  - exists sampleGame. split; [exact Hgame|]. apply elemb_false. reflexivity.
  - destruct (owner_passes_guard sample alice aliceKey "g1" sampleGame (moveBody "p1")
                (draws "m1" "x" "y" "t") Hkey Hgid Huser Hgame Hown)
      as (_ & _ & _ & Hgood & _).
    destruct (Hgood "p1" (JObj [("x", JNum 1)])) as [_ Hsome].
    { repeat split; done. }
    destruct (Hsome (mkPlayer "p1" "P" "t3") eq_refl) as (Hres & Hmoves & _).
    split; [exact Hres | exact Hmoves].
  - destruct (owner_passes_guard sample alice aliceKey "g1" sampleGame (moveBody "nobody")
                (draws "m1" "x" "y" "t") Hkey Hgid Huser Hgame Hown)
      as (_ & _ & _ & Hgood & _).
    destruct (Hgood "nobody" (JObj [("x", JNum 1)])) as [Hnone _].
    { repeat split; done. }
    apply Hnone. apply elemb_false. reflexivity.
  - destruct (owner_passes_guard sample alice aliceKey "g1" sampleGame (moveBody "p1")
                (draws "m1" "x" "y" "t") Hkey Hgid Huser Hgame Hown)
      as (_ & _ & _ & _ & Hreg & _).
    rewrite Hreg. reflexivity.
Defined.

(** C8. The handler of POST /games/:gameId/moves announces, in its own
    message and in its OpenAPI annotation, that [data] must be a JSON
    object, and tests it with [!data || typeof data !== 'object'].  An array
    has [typeof] 'object', so the test lets it through: for every game,
    every requester who is its owner or one of its players and every
    [playerId] naming a player of the game, a [data] that is an array is
    answered 201, the array is recorded as the data of the new move, and
    the move is broadcast; a [data] that is a number, a string or a boolean
    is refused with 400 'Invalid move data (must be JSON object)' and
    changes nothing. *)
Theorem postMoves_accepts_array_data (s : State) (user : User) (gameId pid : string)
    (game : Game) (player : Player) (items : list JsValue) (d : Draws) :
  getGameById gameId (games s) = Some game ->
  user_id user ∈ map player_id (players game) \/ ownerId game = user_id user ->
  pid <> "" ->
  List.find (fun p => player_id p =? pid) (players game) = Some player ->
  let submit dat := postMoves user gameId (JObj [("playerId", JStr pid); ("data", dat)]) d s in
  let move := mkMove (uuid1 d) pid (JArr items) (now1 d) in
  (submit (JArr items)).1 = mkResponse 201 (PMoveAdded (Some move))
  /\ getGameMoves gameId (games (submit (JArr items)).2) = moves game ++ [move]
  /\ sockets (submit (JArr items)).2 =
       broadcastToGame gameId (EvMove gameId (Some move) (player_name player))
         (gameConnections s) (sockets s)
  /\ forall dat,
       (exists z, dat = JNum z) \/ (exists str, dat = JStr str) \/ (exists b, dat = JBool b) ->
       submit dat = (mkResponse 400 (PError "Invalid move data (must be JSON object)"), s).
Proof.
  intros Hgame Hauth Hne Hplayer submit move.
  destruct (postMoves_checks s user gameId (JObj [("playerId", JStr pid); ("data", JArr items)]) d)
    as [_ Hchecks].
  destruct (Hchecks game Hgame) as [_ Hadmitted].
  destruct (Hadmitted Hauth) as [_ Hgood].
  destruct (Hgood pid (JArr items)) as [_ Hsome].
  { repeat split; done. }
  destruct (Hsome player Hplayer) as (Hres & _ & Hgames & _ & Hsocks).
  split; [exact Hres|]. split; [|split; [exact Hsocks|]].
  - unfold submit. rewrite Hgames. by apply getGameMoves_pushMove.
  - intros dat Hscalar. unfold submit, postMoves.
    rewrite Hgame, (proj2 (guard_admits game user) Hauth).
    cbn [destructure assoc String.eqb Ascii.eqb Bool.eqb].
    rewrite (proj2 (isString_spec (JStr pid))); [|by exists pid].
    destruct Hscalar as [[z ->]|[[str ->]|[b ->]]]; simpl; by rewrite ?orb_true_r.
Qed.

(** In the sample session Alice submits the array [[1, 2]] as the data of a
    move of player [p1]: the answer is 201 and the array is recorded, where
    the number 7 in its place is refused as not being a JSON object. *)
Lemma postMoves_accepts_array_data_witness :
  (let r := postMoves alice "g1"
              (JObj [("playerId", JStr "p1"); ("data", JArr [JNum 1; JNum 2])])
              (draws "m1" "x3" "y3" "t5") sample in
   r.1 = mkResponse 201 (PMoveAdded (Some (mkMove "m1" "p1" (JArr [JNum 1; JNum 2]) "t5")))
   /\ getGameMoves "g1" (games r.2) = [mkMove "m1" "p1" (JArr [JNum 1; JNum 2]) "t5"])
  /\ postMoves alice "g1" (JObj [("playerId", JStr "p1"); ("data", JNum 7)])
       (draws "m1" "x3" "y3" "t5") sample
     = (mkResponse 400 (PError "Invalid move data (must be JSON object)"), sample).
Proof.
  destruct (postMoves_accepts_array_data sample alice "g1" "p1" sampleGame
              (mkPlayer "p1" "P" "t3") [JNum 1; JNum 2] (draws "m1" "x3" "y3" "t5")
              eq_refl (or_intror eq_refl)) as (Hres & Hmoves & _ & Hscalar); [done | done |].
  split; [split; [exact Hres | exact Hmoves]|].
  apply Hscalar. left. by exists 7%Z.
Defined.

(** * Further properties of the code *)

(** ** Authentication and failed requests *)

(** X1. Behind [apiKeyAuth] a request is answered 401 exactly when the
    [X-API-Key] header is absent or empty, or is the key of no user; a 401
    leaves the state as it was; and no handler behind the middleware ever
    answers 401 itself. *)
Theorem unauthenticated_is_401 (header : option string) (req : Request) (d : Draws)
    (s : State) :
  protected req = true ->
  (statusCode (app header req d s).1 = 401 <->
     present header = false \/ getUserByApiKey (default "" header) (users s) = None)
  /\ (statusCode (app header req d s).1 = 401 -> (app header req d s).2 = s)
  /\ (forall user, statusCode (gameRoutes user req d s).1 <> 401).
Proof.
  intros Hprot.
  assert (Hnever : forall user, statusCode (gameRoutes user req d s).1 <> 401).
  { intros user. unfold_routes. unfold_store.
    destruct req; repeat break_match; simpl; lia. }
  assert (Happ : app header req d s =
            apiKeyAuth header s (fun user => gameRoutes user req d s)).
  { by destruct req. }
  rewrite Happ. unfold apiKeyAuth.
  destruct (present header) eqn:Hp; simpl.
  - destruct (getUserByApiKey (default "" header) (users s)) as [user|] eqn:Hu; simpl.
    + split; [|split; [|done]].
      * split; [intros H; by destruct (Hnever user) | intros [?|?]; done].
      * intros H. by destruct (Hnever user).
    + split; [|split; [done|done]]. split; [by right | done].
  - split; [|split; [done|done]]. split; [by left | done].
Qed.

Lemma unauthenticated_is_401_witness :
  app (Some "no-such-key") (DeleteGame "g1") (draws "" "" "" "") sample
  = (mkResponse 401 (PError "Invalid API key"), sample).
Proof.
  destruct (unauthenticated_is_401 (Some "no-such-key") (DeleteGame "g1")
              (draws "" "" "" "") sample eq_refl) as (Hiff & Hsame & _).
  assert (H401 : statusCode (app (Some "no-such-key") (DeleteGame "g1")
                               (draws "" "" "" "") sample).1 = 401).
  { apply Hiff. right. reflexivity. }
  specialize (Hsame H401).
  destruct (app (Some "no-such-key") (DeleteGame "g1") (draws "" "" "" "") sample)
    as [r s'] eqn:Happ.
  simpl in Hsame. subst s'. f_equal.
  by vm_compute in Happ; injection Happ as <-.
Defined.

Lemma withGames_same (s : State) : withGames s (games s) = s.
Proof. by destruct s. Qed.

(** X2. Take a request whose body [express.json] has parsed and whose
    handling meets no file or socket error, which is what [app] runs.  If
    [apiKeyAuth] or the route handler answers it with a status other than
    200 or 201, it changes nothing: neither the store, nor the registry,
    nor any socket, so it broadcasts nothing.  A GET request changes
    nothing either, whatever its answer. *)
Theorem failed_requests_change_nothing (header : option string) (req : Request)
    (d : Draws) (s : State) :
  (statusCode (app header req d s).1 <> 200 ->
   statusCode (app header req d s).1 <> 201 ->
   (app header req d s).2 = s)
  /\ (readOnly req = true -> (app header req d s).2 = s).
Proof.
  split.
  - unfold_routes. unfold_store.
    destruct req; repeat break_match; simpl; simplify_eq; intros H200 H201;
      try done; try apply withGames_same.
  - intros Hread. unfold_routes. unfold_store.
    destruct req; try discriminate Hread; repeat break_match; simpl; by destruct s.
Qed.

Lemma failed_requests_change_nothing_witness :
  (app (Some bobKey) (DeleteGame "g1") (draws "" "" "" "") sample).2 = sample.
Proof.
  refine (proj1 (failed_requests_change_nothing (Some bobKey) (DeleteGame "g1")
            (draws "" "" "" "") sample) _ _); by vm_compute.
Defined.

(** ** Users *)

Lemma find_app_Some {A} (p : A -> bool) (l k : list A) (x : A) :
  List.find p l = Some x -> List.find p (l ++ k) = Some x.
Proof.
  induction l as [|y rest IH]; simpl; [done|]. destruct (p y); [done | exact IH].
Qed.

Lemma find_app_None {A} (p : A -> bool) (l k : list A) :
  List.find p l = None -> List.find p (l ++ k) = List.find p k.
Proof.
  induction l as [|y rest IH]; simpl; [done|]. destruct (p y); [done | exact IH].
Qed.

(** A request leaves the users alone or appends the user it registered,
    whose username no earlier user has. *)
Lemma app_users (header : option string) (req : Request) (d : Draws) (s : State) :
  users (app header req d s).2 = users s \/
  exists nm,
    invalidName nm = false /\
    List.find (fun u => username u =? trimmed nm) (users s) = None /\
    users (app header req d s).2 =
      users s ++ [mkUser (uuid3 d) (trimmed nm) (uuid1 d +:+ removeDashes (uuid2 d)) (now1 d)].
Proof.
  unfold_routes. unfold_store.
  destruct req; repeat break_match; simplify_eq; simpl; try (by left).
  right. eexists. split; [eassumption|]. split; [eassumption | done].
Qed.

Lemma next_users (s : State) (a : Action) :
  users (next s a) = users s \/
  exists d nm,
    (admissible s a = true -> fresh s d = true) /\
    invalidName nm = false /\
    List.find (fun u => username u =? trimmed nm) (users s) = None /\
    users (next s a) =
      users s ++ [mkUser (uuid3 d) (trimmed nm) (uuid1 d +:+ removeDashes (uuid2 d)) (now1 d)].
Proof.
  destruct (next_store s a) as [(header & req & d & ->)|[Hu _]]; [|by left].
  simpl. destruct (app_users header req d s) as [Hu|(nm & H1 & H2 & H3)]; [by left|].
  right. by exists d, nm.
Qed.

(** X3. No step of the server removes or alters a user: the Users
    collection after a step, and after any run of steps, starts with the
    collection before it.  So a key that authenticates a user keeps
    authenticating that same user for ever, and a user found by identifier
    stays found. *)
Theorem users_are_kept (s : State) (actions : list Action) (key : string) (u : User) :
  users s `prefix_of` users (run s actions)
  /\ (getUserByApiKey key (users s) = Some u ->
      getUserByApiKey key (users (run s actions)) = Some u)
  /\ (getUserById key (users s) = Some u ->
      getUserById key (users (run s actions)) = Some u).
Proof.
  assert (Hpre : users s `prefix_of` users (run s actions)).
  { revert s. induction actions as [|a rest IH]; intros s; simpl; [done|].
    etrans; [|apply IH].
    destruct (next_users s a) as [->|(d & nm & _ & _ & _ & ->)]; [done|].
    by apply prefix_app_r. }
  split; [done|]. destruct Hpre as [k ->].
  split; intros H; by apply find_app_Some.
Qed.

Lemma users_are_kept_witness :
  getUserByApiKey aliceKey
    (users (run sample
       [Http None (PostRegister (field "username" (JStr "carol"))) (draws "k1" "k2" "u-carol" "t8")]))
  = Some alice.
Proof.
  refine (proj1 (proj2 (users_are_kept sample _ aliceKey alice)) _). reflexivity.
Defined.

(** X4. In every reachable state the usernames of the registered users are
    pairwise distinct, and so are their identifiers. *)
Theorem usernames_are_unique (s : State) :
  reachable s ->
  NoDup (map username (users s)) /\ NoDup (map user_id (users s)).
Proof.
  induction 1 as [|s a Hs [IHn IHi] Hadm]; [split; apply NoDup_nil_2|].
  destruct (next_users s a) as [->|(d & nm & Hfresh & _ & Hfind & ->)]; [done|].
  rewrite !map_app. simpl. split.
  - apply NoDup_app. split; [done|]. split; [|apply NoDup_singleton].
    intros x Hx Hx'. apply list_elem_of_singleton in Hx'. subst x.
    apply list_elem_of_fmap in Hx as (u & Hname & Hu).
    rewrite find_None_elem in Hfind. specialize (Hfind u Hu). simpl in Hfind.
    rewrite <- Hname in Hfind. by rewrite String.eqb_refl in Hfind.
  - apply NoDup_app. split; [done|]. split; [|apply NoDup_singleton].
    intros x Hx Hx'. apply list_elem_of_singleton in Hx'. subst x.
    apply fresh_spec in Hfresh as [_ Hu3]; [|done]. apply Hu3.
    unfold allIds. apply elem_of_app. by left.
Qed.

Lemma usernames_are_unique_witness : NoDup (map username (users sample)).
Proof. exact (proj1 (usernames_are_unique sample sample_reachable)). Defined.

(** X5. The outcomes of POST /auth/register.  A body whose [username] is
    not a string with a non-blank trimmed form is answered 400 and nothing
    changes.  Otherwise, when the trimmed username is taken the answer is 400
    "User already exists" and nothing changes; when it is free the answer is
    201 with the new user, who is appended to the collection under the
    trimmed username with the identifier and the key drawn, and nothing else
    changes.  The new user is then found by identifier when the identifier
    is new, and by key when no earlier user has the key. *)
Theorem register_outcome (body : JsValue) (d : Draws) (s : State) :
  let r := postRegister body d s in
  ((forall str, destructure body "username" = Some (JStr str) -> trim str = "") ->
     statusCode r.1 = 400 /\ r.2 = s)
  /\ forall str, destructure body "username" = Some (JStr str) -> trim str <> "" ->
       (trim str ∈ map username (users s) ->
          r = (mkResponse 400 (PError "User already exists"), s))
       /\ (trim str ∉ map username (users s) ->
           let user := mkUser (uuid3 d) (trim str) (uuid1 d +:+ removeDashes (uuid2 d))
                              (now1 d) in
           r.1 = mkResponse 201 (PUserRegistered user)
           /\ users r.2 = users s ++ [user]
           /\ games r.2 = games s /\ gameConnections r.2 = gameConnections s
           /\ sockets r.2 = sockets s
           /\ (uuid3 d ∉ map user_id (users s) ->
               getUserById (uuid3 d) (users r.2) = Some user)
           /\ (apiKey user ∉ map apiKey (users s) ->
               getUserByApiKey (apiKey user) (users r.2) = Some user)).
Proof.
  intros r. subst r. unfold postRegister. split.
  - intros Hbad. destruct (destructure body "username") as [nm|]; [|done].
    destruct (invalidName nm) eqn:Hinv; [done|].
    apply invalidName_false in Hinv as (str & -> & Hne). by destruct (Hbad str).
  - intros str -> Hne.
    assert (invalidName (JStr str) = false) as ->.
    { apply invalidName_false. by exists str. }
    unfold trimmed. simpl asString. split.
    + intros Hin. by rewrite registerUser_duplicate.
    + intros Hnot. unfold registerUser.
      assert (List.find (fun u => username u =? trim str) (users s) = None) as ->.
      { apply find_None_elem. intros u Hu. apply eqb_false. intros Heq.
        apply Hnot. rewrite <- Heq. apply list_elem_of_fmap. by exists u. }
      simpl. repeat split; try done.
      * intros Hid. unfold getUserById. rewrite find_app_None.
        -- simpl. by rewrite String.eqb_refl.
        -- apply find_None_elem. intros u Hu. apply eqb_false. intros Heq.
           apply Hid. rewrite <- Heq. apply list_elem_of_fmap. by exists u.
      * intros Hkey. unfold getUserByApiKey. rewrite find_app_None.
        -- simpl. by rewrite String.eqb_refl.
        -- apply find_None_elem. intros u Hu. apply eqb_false. intros Heq.
           apply Hkey. rewrite <- Heq. apply list_elem_of_fmap. by exists u.
Qed.

Lemma register_outcome_witness :
  (postRegister (field "username" (JStr " carol ")) (draws "k5" "k-6" "u-carol" "t8") sample).1
  = mkResponse 201 (PUserRegistered (mkUser "u-carol" "carol" "k5k6" "t8")).
Proof.
  destruct (register_outcome (field "username" (JStr " carol "))
              (draws "k5" "k-6" "u-carol" "t8") sample) as [_ Hok].
  destruct (Hok " carol " eq_refl) as [_ Hfree]; [by vm_compute|].
  destruct Hfree as [Hres _]; [|exact Hres].
  apply elemb_false. by vm_compute.
Defined.

(** ** Games *)

Lemma fresh_game_id (s : State) (d : Draws) :
  fresh s d = true -> forall g, g ∈ games s -> game_id g <> uuid1 d.
Proof.
  intros Hfresh g Hg Heq. apply fresh_spec in Hfresh as [Hu1 _]. apply Hu1.
  rewrite <- Heq. apply (allIds_game s g); [done | apply list_elem_of_here].
Qed.

(** X6. Creating a game and reading it back.  A POST /games answered 201
    carries a non-blank name; the game created has the identifier drawn,
    the trimmed name, the requester as owner, no player, no move and status
    "active", and is appended to the collection.  With a new identifier, the
    requester then reads exactly this game with GET /games/:gameId, finds it
    last in GET /games, and every game that was found by its identifier
    before is still found. *)
Theorem create_game_then_read (user : User) (body : JsValue) (d : Draws) (s : State) :
  fresh s d = true ->
  statusCode (postGames user body d s).1 = 201 ->
  let s' := (postGames user body d s).2 in
  exists str,
    destructure body "name" = Some (JStr str) /\ trim str <> "" /\
    let game := mkGame (uuid1 d) (JStr (trim str)) (user_id user) [] []
                       (JStr "active") (now1 d) (now2 d) in
    (postGames user body d s).1 = mkResponse 201 (PGameCreated game)
    /\ games s' = games s ++ [game] /\ users s' = users s
    /\ getGame user (uuid1 d) s' = (mkResponse 200 (PGame game), s')
    /\ getGamesByUserId (user_id user) (games s') =
         getGamesByUserId (user_id user) (games s) ++ [game]
    /\ forall gameId g, getGameById gameId (games s) = Some g ->
                        getGameById gameId (games s') = Some g.
Proof.
  intros Hfresh. unfold postGames.
  destruct (destructure body "name") as [nm|]; [|simpl; lia].
  destruct (invalidName nm) eqn:Hinv; [simpl; lia|].
  apply invalidName_false in Hinv as (str & -> & Hne).
  intros _. exists str. simpl. split; [done|]. split; [done|].
  split; [done|]. split; [done|]. split; [done|]. split; [|split].
  - unfold getGame, getGameById. simpl. rewrite find_app_None.
    + simpl. unfold hasId. simpl. by rewrite !String.eqb_refl.
    + apply find_None_elem. intros g Hg. apply eqb_false. by apply (fresh_game_id s d).
  - unfold getGamesByUserId. rewrite List.filter_app. simpl.
    by rewrite String.eqb_refl.
  - intros gameId g Hg. by apply find_app_Some.
Qed.

Lemma create_game_then_read_witness :
  getGame bob "g2"
    (postGames bob (field "name" (JStr " Go ")) (draws "g2" "x5" "y5" "t8") sample).2
  = (mkResponse 200 (PGame (mkGame "g2" (JStr "Go") "u-bob" [] [] (JStr "active") "t8" "t8")),
     (postGames bob (field "name" (JStr " Go ")) (draws "g2" "x5" "y5" "t8") sample).2).
Proof.
  destruct (create_game_then_read bob (field "name" (JStr " Go "))
              (draws "g2" "x5" "y5" "t8") sample) as (str & Hstr & _ & _ & _ & _ & Hget & _);
    [by vm_compute | by vm_compute |].
  injection Hstr as <-. exact Hget.
Defined.

(** X7. GET /games always answers 200 and changes nothing.  It lists the
    stored games owned by the requester and no other game, in the order of
    the store, and its count is the number of games listed. *)
Theorem list_games_owner_only (user : User) (s : State) :
  exists gs,
    getGames user s = (mkResponse 200 (PGames (length gs) gs), s)
    /\ gs = getGamesByUserId (user_id user) (games s)
    /\ (forall g, g ∈ gs <-> g ∈ games s /\ ownerId g = user_id user)
    /\ gs `sublist_of` games s.
Proof.
  exists (getGamesByUserId (user_id user) (games s)).
  split; [done|]. split; [done|]. unfold getGamesByUserId. split.
  - intros g. rewrite list_elem_of_In, List.filter_In, <- list_elem_of_In, eqb_true. done.
  - induction (games s) as [|g rest IH]; simpl; [done|].
    destruct (ownerId g =? user_id user); [by apply sublist_skip | by apply sublist_cons].
Qed.

(** X8. The owner-only routes.  On GET, PUT and DELETE /games/:gameId, POST
    and GET /games/:gameId/players, DELETE /games/:gameId/players/:playerId
    and GET /games/:gameId/moves/:moveId, a request for a game that does not
    exist is answered 404 "Game not found", and a request by anyone but the
    owner, a listed player included, is answered 403 "Access denied"; in
    both cases nothing changes. *)
Theorem owner_only_routes (user : User) (req : Request) (gameId : string) (d : Draws)
    (s : State) :
  ownerOnly req = true -> gameOf req = Some gameId ->
  (getGameById gameId (games s) = None ->
     gameRoutes user req d s = (mkResponse 404 (PError "Game not found"), s))
  /\ (forall game, getGameById gameId (games s) = Some game ->
        ownerId game <> user_id user ->
        gameRoutes user req d s = (mkResponse 403 (PError "Access denied"), s)).
Proof.
  intros Hown Hgame. split.
  - intros Hnone. destruct req; try discriminate Hown; injection Hgame as ->;
      unfold_routes; by rewrite Hnone.
  - intros game Hsome Hne. apply eqb_false in Hne.
    destruct req; try discriminate Hown; injection Hgame as ->;
      unfold_routes; by rewrite Hsome, Hne.
Qed.

(** A user with the identifier of player [p1] may not read the roster. *)
Lemma owner_only_routes_witness :
  gameRoutes (mkUser "p1" "pat" "kp" "t") (GetPlayers "g1") (draws "" "" "" "") sample
  = (mkResponse 403 (PError "Access denied"), sample).
Proof.
  refine (proj2 (owner_only_routes (mkUser "p1" "pat" "kp" "t") (GetPlayers "g1") "g1"
                   (draws "" "" "" "") sample eq_refl eq_refl) sampleGame eq_refl _).
  by vm_compute.
Defined.

Lemma hasId_assign (gameId : string) (updates : Updates) (now : string) (g : Game) :
  hasId gameId (assign g updates now) = hasId gameId g.
Proof. done. Qed.

(** X9. Updating a game and reading it back.  A PUT /games/:gameId by the
    owner with a body that is not [null] is answered 200.  The game takes
    the [name] of the body when that is truthy, of whatever type, and keeps
    its own otherwise; the same for [status]; its [updatedAt] is the time of
    the request.  The response carries the updated game and the owner then
    reads the same game with GET /games/:gameId. *)
Theorem put_then_get (user : User) (gameId : string) (body nm st : JsValue) (d : Draws)
    (s : State) (game : Game) :
  getGameById gameId (games s) = Some game ->
  ownerId game = user_id user ->
  destructure body "name" = Some nm ->
  destructure body "status" = Some st ->
  let r := putGame user gameId body d s in
  exists game',
    r.1 = mkResponse 200 (PGameUpdated (Some game'))
    /\ getGame user gameId r.2 = (mkResponse 200 (PGame game'), r.2)
    /\ name game' = (if truthy nm then nm else name game)
    /\ status game' = (if truthy st then st else status game)
    /\ updatedAt game' = now1 d.
Proof.
  intros Hgame Hown Hnm Hst r. subst r. unfold putGame, updateGame.
  rewrite Hgame, Hnm, Hst. apply eqb_true in Hown. rewrite Hown. simpl.
  unfold getGameById in Hgame. rewrite Hgame. simpl.
  eexists. split; [done|]. split; [|split; [|split; [|done]]].
  - unfold getGame, getGameById. simpl. rewrite find_modifyFirst; [|done].
    rewrite Hgame. simpl. by rewrite Hown.
  - simpl. by destruct (truthy nm).
  - simpl. by destruct (truthy st).
Qed.

(** Alice sets the name of [g1] to the number 7; the status stays. *)
Lemma put_then_get_witness :
  exists game',
    (getGame alice "g1" (putGame alice "g1" (field "name" (JNum 7))
                                 (draws "" "" "" "t9") sample).2).1
      = mkResponse 200 (PGame game')
    /\ name game' = JNum 7 /\ status game' = JStr "active".
Proof.
  destruct (put_then_get alice "g1" (field "name" (JNum 7)) (JNum 7) JUndefined
              (draws "" "" "" "t9") sample sampleGame eq_refl eq_refl eq_refl eq_refl)
    as (game' & _ & Hget & Hname & Hstatus & _).
  exists game'. rewrite Hget. split; [done|]. split; [exact Hname | exact Hstatus].
Defined.

(** ** Deleting a game *)

Lemma find_delete_other {A} (p : A -> bool) (l : list A) (k : nat) (x : A) :
  l !! k = Some x -> p x = false -> List.find p (delete k l) = List.find p l.
Proof.
  revert k. induction l as [|y rest IH]; intros k; [done|].
  destruct k as [|k]; simpl.
  - intros [= ->] Hp. by rewrite Hp.
  - intros Hk Hp. destruct (p y); [done|]. by eapply IH.
Qed.

Lemma find_delete_unique (gameId : string) (l : list Game) (k : nat) :
  NoDup (map game_id l) -> findIndex (hasId gameId) l = Some k ->
  List.find (hasId gameId) (delete k l) = None.
Proof.
  intros Hnd Hk. apply findIndex_Some in Hk as (x & Hx & Hp & _).
  apply eqb_true in Hp. apply find_None_elem. intros y Hy. apply eqb_false. intros Heq.
  apply list_elem_of_lookup in Hy as (j & Hj).
  assert (Hkx : map game_id l !! k = Some gameId).
  { rewrite list_lookup_fmap, Hx. simpl. by f_equal. }
  destruct (decide (j < k)).
  - rewrite list_lookup_delete_lt in Hj; [|done].
    assert (map game_id l !! j = Some gameId).
    { rewrite list_lookup_fmap, Hj. simpl. by f_equal. }
    pose proof (NoDup_lookup _ _ _ _ Hnd H Hkx). lia.
  - rewrite list_lookup_delete_ge in Hj; [|lia].
    assert (map game_id l !! S j = Some gameId).
    { rewrite list_lookup_fmap, Hj. simpl. by f_equal. }
    pose proof (NoDup_lookup _ _ _ _ Hnd H Hkx). lia.
Qed.

(** X10. Deleting a game.  In a reachable state a DELETE /games/:gameId by
    the owner is answered 200; afterwards no game has that identifier, every
    other identifier finds the game it found before, the collection is one
    game shorter, and a second DELETE is answered 404.  The users, the
    registry and the sockets are untouched: connections registered for the
    deleted game stay registered and no event is sent. *)
Theorem delete_game_removes_it (user : User) (gameId : string) (s : State) (game : Game) :
  reachable s ->
  getGameById gameId (games s) = Some game ->
  ownerId game = user_id user ->
  let r := deleteGameRoute user gameId s in
  r.1 = mkResponse 200 (PMessage "Game deleted successfully")
  /\ getGameById gameId (games r.2) = None
  /\ (forall other, other <> gameId ->
        getGameById other (games r.2) = getGameById other (games s))
  /\ S (length (games r.2)) = length (games s)
  /\ users r.2 = users s /\ gameConnections r.2 = gameConnections s
  /\ sockets r.2 = sockets s
  /\ deleteGameRoute user gameId r.2 = (mkResponse 404 (PError "Game not found"), r.2).
Proof.
  intros Hreach Hgame Hown r. subst r.
  destruct (reachable_storeOk s Hreach) as (_ & _ & Hids).
  unfold deleteGameRoute, deleteGame. rewrite Hgame.
  apply eqb_true in Hown. rewrite Hown. simpl.
  pose proof Hgame as Hfind. unfold getGameById in Hfind. rewrite find_findIndex in Hfind.
  destruct (findIndex (hasId gameId) (games s)) as [k|] eqn:Hk; [|done].
  simpl in Hfind. simpl.
  assert (Hgone : getGameById gameId (splice1 k (games s)) = None).
  { by apply find_delete_unique. }
  split; [done|]. split; [done|]. split; [|split; [|by rewrite Hgone]].
  - intros other Hne. unfold getGameById, splice1.
    apply (find_delete_other _ _ _ game Hfind).
    apply eqb_false. apply find_Some_elem in Hgame as [_ Hid]. apply eqb_true in Hid.
    congruence.
  - unfold splice1. rewrite length_delete; [|by eexists].
    apply lookup_lt_Some in Hfind. lia.
Qed.

Lemma delete_game_removes_it_witness :
  getGameById "g1" (games (deleteGameRoute alice "g1" sample).2) = None
  /\ registeredFor (deleteGameRoute alice "g1" sample).2 "g1" = [0; 1].
Proof.
  destruct (delete_game_removes_it alice "g1" sample sampleGame sample_reachable
              eq_refl eq_refl) as (_ & Hgone & _ & _ & _ & Hreg & _).
  split; [exact Hgone|]. unfold registeredFor. rewrite Hreg. reflexivity.
Defined.

(** ** The roster *)

Lemma hasId_splicePlayer (gameId : string) (k : nat) (now : string) (g : Game) :
  hasId gameId (splicePlayer k now g) = hasId gameId g.
Proof. done. Qed.

Lemma findIndex_player_None (pid : string) (ps : list Player) :
  findIndex (fun p => player_id p =? pid) ps = None <-> pid ∉ map player_id ps.
Proof.
  rewrite <- find_player_None, find_findIndex.
  destruct (findIndex _ ps) as [k|] eqn:Hk; simpl; [|done].
  apply findIndex_Some in Hk as (x & -> & _). done.
Qed.

(** X11. Removing a player, by the owner of an existing game.  When no
    player of the game has the identifier the answer is 404 "Player not
    found" and nothing changes, no event included.  Otherwise the answer is
    200, the first player with the identifier leaves the roster and the
    other players keep their order, the moves of the game are kept, those of
    the removed player included, and one player-removed event is broadcast
    to the game. *)
Theorem remove_player_outcome (user : User) (gameId pid : string) (d : Draws)
    (s : State) (game : Game) :
  getGameById gameId (games s) = Some game ->
  ownerId game = user_id user ->
  let r := deletePlayer user gameId pid d s in
  (pid ∉ map player_id (players game) ->
     r = (mkResponse 404 (PError "Player not found"), s))
  /\ forall k, findIndex (fun p => player_id p =? pid) (players game) = Some k ->
       r.1 = mkResponse 200 (PMessage "Player removed successfully")
       /\ getGamePlayers gameId (games r.2) = delete k (players game)
       /\ getGameMoves gameId (games r.2) = moves game
       /\ users r.2 = users s /\ gameConnections r.2 = gameConnections s
       /\ sockets r.2 =
            broadcastToGame gameId (EvPlayerRemoved gameId pid)
                            (gameConnections s) (sockets s).
Proof.
  intros Hgame Hown r. subst r. unfold deletePlayer, removePlayerFromGame.
  rewrite Hgame. apply eqb_true in Hown. rewrite Hown. simpl.
  unfold getGameById in Hgame. rewrite Hgame. split.
  - intros Hno. apply findIndex_player_None in Hno. rewrite Hno. simpl.
    by rewrite withGames_same.
  - intros k ->. simpl. split; [done|].
    unfold getGamePlayers, getGameMoves, getGameById.
    rewrite find_modifyFirst; [|done]. by rewrite Hgame.
Qed.

Lemma remove_player_outcome_witness :
  getGamePlayers "g1" (games (deletePlayer alice "g1" "p1" (draws "" "" "" "t9") sample).2) = [].
Proof.
  destruct (remove_player_outcome alice "g1" "p1" (draws "" "" "" "t9") sample sampleGame
              eq_refl eq_refl) as [_ Hok].
  destruct (Hok 0 eq_refl) as (_ & Hroster & _). exact Hroster.
Defined.

Lemma findIndex_app_last {A} (p : A -> bool) (l : list A) (x : A) :
  (forall y, y ∈ l -> p y = false) -> p x = true ->
  findIndex p (l ++ [x]) = Some (length l).
Proof.
  intros Hl Hx. induction l as [|y rest IH]; simpl; [by rewrite Hx|].
  rewrite (Hl y (list_elem_of_here _ _)). rewrite IH; [done|].
  intros z Hz. apply Hl. by apply list_elem_of_further.
Qed.

Lemma delete_app_last {A} (l : list A) (x : A) : delete (length l) (l ++ [x]) = l.
Proof. induction l as [|y rest IH]; simpl; [done | by rewrite IH]. Qed.

(** X12. Adding a player and removing that player again.  When the owner
    adds a player, answered 201 with an identifier that is new, and then
    removes the player under the identifier returned, the removal is
    answered 200 and the roster is what it was before the two requests. *)
Theorem add_then_remove_player (user : User) (gameId : string) (body : JsValue)
    (d d' : Draws) (s : State) (game : Game) :
  fresh s d = true ->
  getGameById gameId (games s) = Some game ->
  statusCode (postPlayers user gameId body d s).1 = 201 ->
  let s1 := (postPlayers user gameId body d s).2 in
  let r := deletePlayer user gameId (uuid1 d) d' s1 in
  r.1 = mkResponse 200 (PMessage "Player removed successfully")
  /\ getGamePlayers gameId (games r.2) = players game
  /\ getGamePlayers gameId (games s1) <> players game.
Proof.
  intros Hfresh Hgame. unfold postPlayers. rewrite Hgame.
  destruct (negb (ownerId game =? user_id user)) eqn:Hown; [simpl; lia|].
  destruct (destructure body "name") as [nm|]; [|simpl; lia].
  destruct (invalidName nm); [simpl; lia|].
  unfold addPlayerToGame. pose proof Hgame as Hfind. unfold getGameById in Hfind.
  rewrite Hfind. intros _. simpl.
  set (player := mkPlayer (uuid1 d) (trimmed nm) (now1 d)).
  assert (Hnew : forall p, p ∈ players game -> (player_id p =? uuid1 d) = false).
  { intros p Hp. apply eqb_false. intros Heq. apply fresh_spec in Hfresh as [Hu1 _].
    apply Hu1. rewrite <- Heq. apply find_Some_elem in Hgame as [Hin _].
    by eapply allIds_player. }
  assert (Hgame1 : getGameById gameId
            (modifyFirst (hasId gameId) (pushPlayer player (now2 d)) (games s))
            = Some (pushPlayer player (now2 d) game)).
  { unfold getGameById. rewrite find_modifyFirst; [|done]. by rewrite Hfind. }
  unfold deletePlayer, removePlayerFromGame. simpl. rewrite Hgame1. simpl.
  rewrite Hown. unfold getGameById in Hgame1. rewrite Hgame1. simpl.
  rewrite findIndex_app_last; [|done | apply String.eqb_refl]. simpl.
  split; [done|]. split.
  - unfold getGamePlayers, getGameById. rewrite find_modifyFirst; [|done].
    rewrite Hgame1. simpl. unfold splice1. apply delete_app_last.
  - unfold getGamePlayers, getGameById. rewrite Hgame1. simpl.
    intros Heq. apply (f_equal length) in Heq. rewrite length_app in Heq. simpl in Heq. lia.
Qed.

Lemma add_then_remove_player_witness :
  getGamePlayers "g1"
    (games (deletePlayer alice "g1" "p2" (draws "" "" "" "t9")
              (postPlayers alice "g1" (field "name" (JStr "Q")) (draws "p2" "x" "y" "t8")
                           sample).2).2)
  = [mkPlayer "p1" "P" "t3"].
Proof.
  refine (proj1 (proj2 (add_then_remove_player alice "g1" (field "name" (JStr "Q"))
            (draws "p2" "x" "y" "t8") (draws "" "" "" "t9") sample sampleGame _ eq_refl _)));
    by vm_compute.
Defined.

(** ** Looking a move up *)

(** X13. Recording a move and looking it up.  After a POST
    /games/:gameId/moves answered 201 with an identifier that is new, the
    owner's GET /games/:gameId/moves/:moveId with the identifier returned
    answers 200 with the move recorded; every move found before is still
    found under its identifier; and an identifier that no move of the game
    has is answered 404 "Move not found". *)
Theorem move_recorded_then_found (user owner : User) (gameId : string) (body : JsValue)
    (d : Draws) (s : State) (game : Game) :
  fresh s d = true ->
  getGameById gameId (games s) = Some game ->
  ownerId game = user_id owner ->
  statusCode (postMoves user gameId body d s).1 = 201 ->
  let s' := (postMoves user gameId body d s).2 in
  getMove owner gameId (uuid1 d) s' = (mkResponse 200 (PMove (moveOf (None, body, d))), s')
  /\ (forall moveId m,
        List.find (fun m => move_id m =? moveId) (moves game) = Some m ->
        getMove owner gameId moveId s' = (mkResponse 200 (PMove m), s'))
  /\ (forall moveId,
        moveId ∉ map move_id (moves game) -> moveId <> uuid1 d ->
        getMove owner gameId moveId s' = (mkResponse 404 (PError "Move not found"), s')).
Proof.
  intros Hfresh Hgame Hown. unfold postMoves. rewrite Hgame.
  destruct (negb _ && negb _); [simpl; lia|].
  destruct (destructure body "playerId") as [pid|] eqn:Hpid; [|simpl; lia].
  destruct (destructure body "data") as [dat|] eqn:Hdat; [|simpl; lia].
  destruct (negb (truthy pid) || negb (typeof pid =? "string")); [simpl; lia|].
  destruct (negb (truthy dat) || negb (typeof dat =? "object")); [simpl; lia|].
  destruct (List.find _ (players game)) as [player|]; [|simpl; lia].
  unfold addMoveToGame. pose proof Hgame as Hfind. unfold getGameById in Hfind.
  rewrite Hfind. intros _. simpl. rewrite Hpid, Hdat. simpl.
  set (move := mkMove (uuid1 d) (asString pid) dat (now1 d)).
  assert (Hold : List.find (fun m => move_id m =? uuid1 d) (moves game) = None).
  { apply find_None_elem. intros m Hm. apply eqb_false. intros Heq.
    apply fresh_spec in Hfresh as [Hu1 _]. apply Hu1. rewrite <- Heq.
    apply find_Some_elem in Hgame as [Hin _]. by eapply allIds_move. }
  apply eqb_true in Hown.
  assert (Hgame' : getGameById gameId
            (modifyFirst (hasId gameId) (pushMove move (now2 d)) (games s))
            = Some (pushMove move (now2 d) game)).
  { unfold getGameById. rewrite find_modifyFirst; [|done]. by rewrite Hfind. }
  unfold getMove. simpl. rewrite Hgame'. simpl. rewrite Hown. simpl.
  split; [|split].
  - rewrite find_app_None; [|done]. simpl. by rewrite String.eqb_refl.
  - intros moveId m Hm. by rewrite (find_app_Some _ _ _ _ Hm).
  - intros moveId Hno Hne. rewrite find_app_None.
    + simpl. apply eqb_false in Hne. rewrite String.eqb_sym. by rewrite Hne.
    + apply find_None_elem. intros m Hm. apply eqb_false. intros Heq.
      apply Hno. rewrite <- Heq. apply list_elem_of_fmap. by exists m.
Qed.

Lemma move_recorded_then_found_witness :
  (getMove alice "g1" "m1"
     (postMoves alice "g1" (moveBody "p1") (draws "m1" "x3" "y3" "t5") sample).2).1
  = mkResponse 200 (PMove (mkMove "m1" "p1" (JObj [("x", JNum 1)]) "t5")).
Proof.
  destruct (move_recorded_then_found alice alice "g1" (moveBody "p1")
              (draws "m1" "x3" "y3" "t5") sample sampleGame
              eq_refl eq_refl eq_refl eq_refl) as [Hfound _].
  exact (f_equal fst Hfound).
Defined.

(** ** Operations on a game that does not exist *)

(** X14. When no game has the identifier, the operations of the store that
    act on a game write nothing and report it by their result: [updateGame],
    [addPlayerToGame] and [addMoveToGame] return [null], [deleteGame] and
    [removePlayerFromGame] return [false], and [getGamePlayers] and
    [getGameMoves] return the empty list. *)
Theorem absent_game_is_left_alone (d : Draws) (gameId pid nm : string)
    (updates : Updates) (dat : JsValue) (gs : list Game) :
  getGameById gameId gs = None ->
  updateGame d gameId updates gs = (None, gs)
  /\ deleteGame gameId gs = (false, gs)
  /\ addPlayerToGame d gameId nm gs = (None, gs)
  /\ removePlayerFromGame d gameId pid gs = (false, gs)
  /\ addMoveToGame d gameId pid dat gs = (None, gs)
  /\ getGamePlayers gameId gs = []
  /\ getGameMoves gameId gs = [].
Proof.
  intros Hnone. unfold_store. unfold getGamePlayers, getGameMoves. rewrite Hnone.
  unfold getGameById in Hnone. rewrite Hnone.
  assert (findIndex (hasId gameId) gs = None) as ->; [|done].
  apply findIndex_None. by apply find_None_elem.
Qed.

Lemma absent_game_is_left_alone_witness :
  deleteGame "g9" (games sample) = (false, games sample).
Proof.
  refine (proj1 (proj2 (absent_game_is_left_alone (draws "" "" "" "") "g9" "p" "n"
            (mkUpdates None None) JNull (games sample) _))).
  reflexivity.
Defined.

(** ** Admission to the registry *)

(** X15. A handshake that passes the four checks, by the owner or by a
    user listed as a player, appends one entry for the new socket to the
    list of the game, after the entries already there; the socket is open
    and the connected event, with the name of the game and the username, is
    the one frame sent on it.  Whatever the outcome of a handshake, the
    store, the sockets that existed and the registry lists of the other
    games are untouched, and exactly one socket is added. *)
Theorem handshake_admits (s : State) (apiKeyParam gameIdParam : option string) :
  let s' := onConnection apiKeyParam gameIdParam s in
  let w := length (sockets s) in
  (forall key gameId user game,
     apiKeyParam = Some key -> gameIdParam = Some gameId -> key <> "" -> gameId <> "" ->
     getUserByApiKey key (users s) = Some user ->
     getGameById gameId (games s) = Some game ->
     user_id user ∈ map player_id (players game) \/ ownerId game = user_id user ->
     registeredFor s' gameId = registeredFor s gameId ++ [w]
     /\ default [] (gameConnections s' !! gameId) =
          default [] (gameConnections s !! gameId) ++
          [mkConn w (user_id user) (username user)]
     /\ isOpen (sockets s') w = true
     /\ sentOn s' w = [EvConnected (name game) gameId (username user)]
     /\ forall other, other <> gameId ->
          gameConnections s' !! other = gameConnections s !! other)
  /\ users s' = users s /\ games s' = games s
  /\ length (sockets s') = S (length (sockets s))
  /\ (forall w' sk, sockets s !! w' = Some sk -> sockets s' !! w' = Some sk)
  /\ (forall other, gameIdParam <> Some other ->
        gameConnections s' !! other = gameConnections s !! other).
Proof.
  intros s' w. split.
  - intros key gameId user game -> -> Hkey Hgid Huser Hgame Hauth. subst s' w.
    unfold onConnection, registeredFor, isOpen, sentOn. simpl.
    apply eqb_false in Hkey, Hgid. rewrite Hkey, Hgid. simpl. rewrite Huser, Hgame.
    pose proof (proj2 (guard_admits game user) Hauth) as Hg.
    unfold currentUserIsPlayer, currentUserIsOwner in Hg. rewrite Hg. simpl.
    rewrite lookup_insert_eq. simpl. rewrite fmap_app. simpl.
    rewrite lookup_app_r; [|lia]. rewrite Nat.sub_diag. simpl.
    repeat split; try done. intros other Hne. by rewrite lookup_insert_ne.
  - subst s' w. unfold onConnection, reject.
    destruct (negb (present apiKeyParam) || negb (present gameIdParam)) eqn:Hp.
    { simpl. rewrite length_app. simpl. repeat split; try done; try lia.
      intros w' sk Hw'. by apply lookup_app_l_Some. }
    destruct (getUserByApiKey _ _) as [user|].
    2: { simpl. rewrite length_app. simpl. repeat split; try done; try lia.
         intros w' sk Hw'. by apply lookup_app_l_Some. }
    destruct (getGameById _ _) as [game|].
    2: { simpl. rewrite length_app. simpl. repeat split; try done; try lia.
         intros w' sk Hw'. by apply lookup_app_l_Some. }
    destruct (negb _ && negb _).
    { simpl. rewrite length_app. simpl. repeat split; try done; try lia.
      intros w' sk Hw'. by apply lookup_app_l_Some. }
    simpl. rewrite length_app. simpl. repeat split; try done; try lia.
    + intros w' sk Hw'. by apply lookup_app_l_Some.
    + intros other Hne. rewrite lookup_insert_ne; [done|].
      intros Heq. apply Hne. destruct gameIdParam; simpl in *; [by subst|].
      by rewrite orb_true_r in Hp.
Qed.

(** A user with the identifier of player [p1] is admitted to [g1]. *)
Lemma handshake_admits_witness :
  registeredFor
    (onConnection (Some "kp") (Some "g1")
       (withUsers sample (users sample ++ [mkUser "p1" "pat" "kp" "t"]))) "g1"
  = [0; 1; 2].
Proof.
  destruct (handshake_admits
              (withUsers sample (users sample ++ [mkUser "p1" "pat" "kp" "t"]))
              (Some "kp") (Some "g1")) as [Hadmit _].
  destruct (Hadmit "kp" "g1" (mkUser "p1" "pat" "kp" "t") sampleGame eq_refl eq_refl)
    as [Hreg _];
    [done | done | reflexivity | reflexivity | left; apply list_elem_of_here |].
  rewrite Hreg. reflexivity.
Defined.

(** ** Broadcasts, in any state *)

(** X16. [broadcastToGame] on any registry and any socket table, sound or
    not.  It adds and removes no socket and changes no ready state, close
    code or listener; when the game has no entry in the registry it changes
    nothing; otherwise each socket keeps the frames it had and gets the
    message once per entry of the game that names it if it is open, and
    nothing if it is not.  An entry that names no socket is skipped. *)
Theorem broadcast_frame (gameId : string) (message : Event)
    (conns : gmap string (list Conn)) (socks : list Socket) :
  let socks' := broadcastToGame gameId message conns socks in
  length socks' = length socks
  /\ (conns !! gameId = None -> socks' = socks)
  /\ (forall w sk, socks !! w = Some sk ->
        exists sk',
          socks' !! w = Some sk'
          /\ readyState sk' = readyState sk /\ closeCode sk' = closeCode sk
          /\ onClose sk' = onClose sk
          /\ sent sk' =
               sent sk ++
               replicate (if (readyState sk =? OPEN)%nat
                          then occurrences w (default [] (conns !! gameId)) else 0) message)
  /\ (forall w, socks !! w = None -> socks' !! w = None).
Proof.
  intros socks'. subst socks'. split; [apply broadcast_length|]. split; [|split].
  - intros Hnone. unfold broadcastToGame. by rewrite Hnone.
  - intros w sk Hw. rewrite (broadcast_lookup _ _ _ _ _ _ Hw). eexists. by split.
  - intros w Hw. by apply broadcast_lookup_None.
Qed.

(** A socket listed twice under a game is sent the message twice; a closing
    socket and a dangling entry get nothing. *)
Lemma broadcast_frame_witness :
  broadcastToGame "g" (EvPlayerDisconnected "u")
    {["g" := [mkConn 0 "a" "a"; mkConn 0 "a" "a"; mkConn 1 "b" "b"; mkConn 7 "c" "c"]]}
    [mkSocket OPEN None [] None; mkSocket CLOSING None [] None] !! 0
  = Some (mkSocket OPEN None [EvPlayerDisconnected "u"; EvPlayerDisconnected "u"] None).
Proof.
  destruct (broadcast_frame "g" (EvPlayerDisconnected "u")
              {["g" := [mkConn 0 "a" "a"; mkConn 0 "a" "a"; mkConn 1 "b" "b"; mkConn 7 "c" "c"]]}
              [mkSocket OPEN None [] None; mkSocket CLOSING None [] None])
    as (_ & _ & Hsock & _).
  destruct (Hsock 0 _ eq_refl) as ([rs cc snt oc] & -> & Hrs & Hcc & Hoc & Hsent).
  simpl in *. by subst.
Defined.

(** ** What a request sends *)

Lemma app_sockets_game (header : option string) (req : Request) (d : Draws) (s : State) :
  sockets (app header req d s).2 = sockets s \/
  exists gameId ev,
    gameOf req = Some gameId /\ broadcasts req = true /\ eventOf req ev /\
    sockets (app header req d s).2 =
      broadcastToGame gameId ev (gameConnections s) (sockets s).
Proof.
  unfold_routes. destruct req; repeat break_match; simpl; try (by left); right;
    eexists _, _; (split; [done|]); (split; [done|]); (split; [|done]); by simpl.
Qed.

(** X17. What a REST request does to the realtime side, in any reachable
    state.  It never changes the registry, nor the ready state, close code
    or listener of a socket.  Only POST players, DELETE player and POST
    moves send anything, each its own kind of event; a socket gets at most
    one new frame, and gets it only if it is open and registered for the
    game the request names. *)
Theorem rest_requests_send_to_their_game_only (header : option string) (req : Request)
    (d : Draws) (s : State) :
  reachable s ->
  let s' := (app header req d s).2 in
  gameConnections s' = gameConnections s
  /\ (forall w sk, sockets s !! w = Some sk ->
        exists sk', sockets s' !! w = Some sk' /\ readyState sk' = readyState sk
                    /\ closeCode sk' = closeCode sk /\ onClose sk' = onClose sk)
  /\ (forall w,
        sentOn s' w = sentOn s w
        \/ exists gameId ev,
             gameOf req = Some gameId /\ broadcasts req = true /\ eventOf req ev
             /\ w ∈ registeredFor s gameId /\ isOpen (sockets s) w = true
             /\ sentOn s' w = sentOn s w ++ [ev]).
Proof.
  intros Hreach s'. subst s'. split; [apply app_registry|]. split.
  - intros w sk Hw.
    destruct (app_socket_lookup header req d s w sk Hw) as (n & m & Hw' & _).
    eexists. by split.
  - intros w.
    destruct (app_sockets_game header req d s) as [Hsame|(gameId & ev & Hg & Hb & He & Hs)].
    + left. unfold sentOn. by rewrite Hsame.
    + pose proof (broadcast_sentOn s gameId ev w
        (registeredFor_NoDup s gameId (reachable_registryOk s Hreach))) as Hsent.
      unfold sentOn in *. simpl in Hsent. rewrite Hs, Hsent.
      destruct (isOpen (sockets s) w) eqn:Hopen; simpl; [|left; by rewrite app_nil_r].
      case_bool_decide as Hreg; [|left; by rewrite app_nil_r].
      right. by exists gameId, ev.
Qed.

Lemma rest_requests_send_to_their_game_only_witness :
  gameConnections (app (Some aliceKey) (DeletePlayer "g1" "p1") (draws "" "" "" "t9") sample).2
  = gameConnections sample.
Proof.
  exact (proj1 (rest_requests_send_to_their_game_only (Some aliceKey)
                  (DeletePlayer "g1" "p1") (draws "" "" "" "t9") sample sample_reachable)).
Defined.

(** ** Identifiers *)

Lemma submseteq_NoDup_inv {A} (l k : list A) : l ⊆+ k -> NoDup k -> NoDup l.
Proof.
  intros Hsub Hnd. apply submseteq_sublist_r in Hsub as (k' & Hperm & Hsl).
  rewrite Hperm. by eapply sublist_NoDup.
Qed.

Lemma gameIds_edit (d : Draws) (f : Game -> Game) (g : Game) :
  gameEdit d f -> gameIds (f g) ⊆+ uuid1 d :: gameIds g.
Proof.
  intros [updates|nm|index|pid dat]; unfold gameIds; simpl.
  - by apply submseteq_cons.
  - rewrite map_app. simpl.
    assert (game_id g :: (map player_id (players g) ++ [uuid1 d]) ++ map move_id (moves g)
            ≡ₚ uuid1 d :: game_id g :: map player_id (players g) ++ map move_id (moves g))
      as ->; [|done].
    rewrite <- app_assoc. simpl. rewrite <- Permutation_middle. apply Permutation_swap.
  - apply submseteq_cons, sublist_submseteq, sublist_skip, sublist_app; [|done].
    unfold splice1. apply (fmap_sublist player_id), sublist_delete.
  - rewrite map_app. simpl.
    assert (game_id g :: map player_id (players g) ++ map move_id (moves g) ++ [uuid1 d]
            ≡ₚ uuid1 d :: game_id g :: map player_id (players g) ++ map move_id (moves g))
      as ->; [|done].
    rewrite app_assoc, <- Permutation_cons_append. apply Permutation_swap.
Qed.

Lemma concat_modifyFirst (x : string) (p : Game -> bool) (f : Game -> Game)
    (l : list Game) :
  (forall g, gameIds (f g) ⊆+ x :: gameIds g) ->
  concat (map gameIds (modifyFirst p f l)) ⊆+ x :: concat (map gameIds l).
Proof.
  intros Hf. induction l as [|g rest IH]; cbn [modifyFirst map concat];
    [by apply submseteq_cons|].
  destruct (p g); cbn [map concat].
  - change (x :: gameIds g ++ concat (map gameIds rest))
      with ((x :: gameIds g) ++ concat (map gameIds rest)).
    by apply submseteq_app.
  - rewrite (Permutation_middle (gameIds g) (concat (map gameIds rest)) x).
    by apply submseteq_skips_l.
Qed.

Lemma concat_delete (i : nat) (l : list Game) :
  concat (map gameIds (delete i l)) `sublist_of` concat (map gameIds l).
Proof.
  revert i. induction l as [|g rest IH]; intros i; [done|].
  destruct i as [|i]; cbn [delete list_delete map concat].
  - by apply sublist_inserts_l.
  - by apply sublist_app.
Qed.

Lemma effect_ids (d : Draws) (s s' : State) :
  storeEffect d s s' -> allIds s' ⊆+ uuid1 d :: uuid3 d :: allIds s.
Proof.
  intros [Hu Hg|nm _ Hu Hg|uid nm Hu Hg|gameId f Hf Hu Hg|index Hu Hg];
    unfold allIds; rewrite Hu, Hg.
  - by do 2 apply submseteq_cons.
  - apply submseteq_cons. rewrite map_app. simpl.
    rewrite <- app_assoc. simpl. by rewrite <- Permutation_middle.
  - rewrite map_app, concat_app. simpl.
    rewrite (Permutation_swap (uuid3 d) (uuid1 d)). apply submseteq_cons.
    rewrite app_assoc, <- Permutation_cons_append. done.
  - rewrite (Permutation_swap (uuid3 d) (uuid1 d)). apply submseteq_cons.
    rewrite (Permutation_middle (map user_id (users s))).
    apply submseteq_skips_l, concat_modifyFirst. intros g. by apply gameIds_edit.
  - do 2 apply submseteq_cons. apply submseteq_skips_l, sublist_submseteq, concat_delete.
Qed.

(** X18. In every reachable state the identifiers held by the store, those
    of the users, the games, the players and the moves together, are
    pairwise distinct.  In particular the identifiers of a game, of its
    players and of its moves are pairwise distinct, so the players of a game
    have distinct identifiers and no player has the identifier of a move. *)
Theorem identifiers_are_distinct (s : State) :
  reachable s ->
  NoDup (allIds s)
  /\ forall g, g ∈ games s ->
       NoDup (gameIds g) /\ NoDup (map player_id (players g))
       /\ forall p m, p ∈ players g -> m ∈ moves g -> player_id p <> move_id m.
Proof.
  intros Hreach.
  assert (Hall : NoDup (allIds s)).
  { induction Hreach as [|s a Hs IH Hadm]; [apply NoDup_nil_2|].
    destruct (next_store s a) as [(header & req & d & ->)|[Hu Hg]].
    - simpl in *. eapply submseteq_NoDup_inv; [apply effect_ids, app_storeEffect|].
      pose proof (fresh_spec s d Hadm) as [Hu1 Hu3].
      apply NoDup_cons. split.
      + intros Hin. apply elem_of_cons in Hin as [Heq|Hin]; [|done].
        unfold fresh in Hadm. rewrite !andb_true_iff, !negb_true_iff in Hadm.
        destruct Hadm as [[_ H13] _]. apply eqb_false in H13. done.
      + apply NoDup_cons. by split.
    - unfold allIds. by rewrite Hu, Hg. }
  split; [done|]. intros g Hg.
  assert (Hgame : NoDup (gameIds g)).
  { unfold allIds in Hall. apply NoDup_app in Hall as (_ & _ & Hgames).
    apply list_elem_of_lookup in Hg as (i & Hi).
    revert i Hi Hgames. induction (games s) as [|g0 rest IH]; intros i Hi Hnd; [done|].
    cbn [map concat] in Hnd. apply NoDup_app in Hnd as (Hg0 & _ & Hrest).
    destruct i as [|i]; simpl in Hi; [by injection Hi as <- | by eapply IH]. }
  split; [done|]. unfold gameIds in Hgame.
  apply NoDup_cons in Hgame as [_ Hgame].
  apply NoDup_app in Hgame as (Hps & Hdisj & _). split; [done|].
  intros p m Hp Hm Heq. apply (Hdisj (player_id p)).
  - apply list_elem_of_fmap. by exists p.
  - rewrite Heq. apply list_elem_of_fmap. by exists m.
Qed.

Lemma identifiers_are_distinct_witness : NoDup (allIds sample).
Proof. exact (proj1 (identifiers_are_distinct sample sample_reachable)). Defined.

(** ** Names *)

(** X19. The validation shared by the three routes that take a name.  A
    value passes exactly when it is a string whose trimmed form is not
    empty.  A [username] on POST /auth/register, a [name] on POST /games and
    a [name] on the owner's POST /games/:gameId/players that does not pass
    is answered 400 with the route's own message, and nothing changes. *)
Theorem blank_names_are_refused (v body : JsValue) (user : User) (gameId : string)
    (game : Game) (d : Draws) (s : State) :
  (invalidName v = false <-> exists str, v = JStr str /\ trim str <> "")
  /\ (invalidName v = true ->
      (destructure body "username" = Some v ->
         postRegister body d s = (mkResponse 400 (PError "Invalid username"), s))
      /\ (destructure body "name" = Some v ->
            postGames user body d s = (mkResponse 400 (PError "Invalid game name"), s))
      /\ (destructure body "name" = Some v ->
            getGameById gameId (games s) = Some game -> ownerId game = user_id user ->
            postPlayers user gameId body d s =
              (mkResponse 400 (PError "Invalid player name"), s))).
Proof.
  split; [apply invalidName_false|]. intros Hinv. split; [|split].
  - intros Hbody. unfold postRegister. by rewrite Hbody, Hinv.
  - intros Hbody. unfold postGames. by rewrite Hbody, Hinv.
  - intros Hbody Hgame Hown. unfold postPlayers. apply eqb_true in Hown.
    by rewrite Hgame, Hown, Hbody, Hinv.
Qed.

(** A name of spaces and tabs is blank; so is a number. *)
Lemma blank_names_are_refused_witness :
  postGames alice (field "name" (JStr "  ")) (draws "g2" "" "" "") sample
  = (mkResponse 400 (PError "Invalid game name"), sample)
  /\ invalidName (JNum 5) = true.
Proof.
  split; [|reflexivity].
  refine (proj1 (proj2 (proj2 (blank_names_are_refused (JStr "  ")
            (field "name" (JStr "  ")) alice "g1" sampleGame (draws "g2" "" "" "") sample)
            eq_refl)) eq_refl).
Defined.

(** ** Sockets over time *)

Lemma elem_of_delete_other {A} (l : list A) (i : nat) (x y : A) :
  x ∈ l -> l !! i = Some y -> x <> y -> x ∈ delete i l.
Proof.
  intros Hx Hi Hne. apply list_elem_of_lookup in Hx as (j & Hj).
  apply list_elem_of_lookup. destruct (decide (j < i)).
  - exists j. by rewrite list_lookup_delete_lt.
  - assert (j <> i) by (intros ->; congruence).
    exists (j - 1). rewrite list_lookup_delete_ge; [|lia].
    by replace (S (j - 1)) with j by lia.
Qed.

(** Every step keeps the sockets there are: their listener and close code,
    and the frames sent on them, to which it may add. *)
Lemma next_socket (s : State) (a : Action) (w : nat) (sk : Socket) :
  sockets s !! w = Some sk ->
  exists sk', sockets (next s a) !! w = Some sk'
    /\ onClose sk' = onClose sk /\ closeCode sk' = closeCode sk
    /\ sent sk `prefix_of` sent sk'
    /\ (readyState sk' = CLOSED \/ readyState sk' = readyState sk
        \/ (readyState sk = OPEN /\ readyState sk' = CLOSING)).
Proof.
  intros Hw. destruct a as [header req d|apiKeyParam gameIdParam|w0|w0]; simpl.
  - destruct (app_socket_lookup header req d s w sk Hw) as (n & m & Hw' & _).
    eexists. split; [exact Hw'|]. simpl. repeat split; try done.
    + by apply prefix_app_r.
    + by right; left.
  - exists sk. split; [|repeat split; try done; by right; left].
    unfold onConnection, reject. repeat break_match; simpl; by apply lookup_app_l_Some.
  - unfold startClosing. destruct (isOpen (sockets s) w0) eqn:Hopen.
    2: { exists sk. repeat split; try done. by right; left. }
    simpl. destruct (decide (w0 = w)) as [->|Hne].
    + rewrite list_lookup_alter_eq, Hw. simpl. eexists. split; [done|]. simpl.
      repeat split; try done. right; right.
      apply isOpen_spec in Hopen as (sk0 & Hsk0 & Hrs). rewrite Hw in Hsk0.
      injection Hsk0 as <-. done.
    + rewrite list_lookup_alter_ne; [|done]. exists sk. repeat split; try done.
      by right; left.
  - unfold onCloseEvent. destruct (sockets s !! w0) as [sk0|] eqn:Hw0.
    2: { exists sk. repeat split; try done. by right; left. }
    assert (Hins : exists sk1,
              <[w0 := mkSocket CLOSED (closeCode sk0) (sent sk0) (onClose sk0)]> (sockets s) !! w
                = Some sk1 /\ onClose sk1 = onClose sk /\ closeCode sk1 = closeCode sk
              /\ sent sk1 = sent sk
              /\ (readyState sk1 = CLOSED \/ readyState sk1 = readyState sk)).
    { destruct (decide (w0 = w)) as [->|Hne].
      - rewrite list_lookup_insert_eq; [|by eapply lookup_lt_Some].
        rewrite Hw in Hw0. injection Hw0 as <-. eexists. split; [done|].
        simpl. repeat split; try done. by left.
      - rewrite list_lookup_insert_ne; [|done]. exists sk. repeat split; try done.
        by right. }
    destruct Hins as (sk1 & Hsk1 & Hon & Hcc & Hsent & Hrs).
    destruct (onClose sk0) as [[gameId user]|]; simpl.
    + rewrite (broadcast_lookup _ _ _ _ _ _ Hsk1). eexists. split; [done|]. simpl.
      repeat split; try done.
      * rewrite Hsent. by apply prefix_app_r.
      * destruct Hrs as [Hrs|Hrs]; [by left | right; by left].
    + exists sk1. repeat split; try done.
      * by rewrite Hsent.
      * destruct Hrs as [Hrs|Hrs]; [by left | right; by left].
Qed.

(** A socket that a step adds is the one the connection handler accepted
    or refused. *)
Lemma next_new_socket (s : State) (a : Action) (w : nat) (sk' : Socket) :
  sockets s !! w = None -> sockets (next s a) !! w = Some sk' -> socketOk sk'.
Proof.
  intros Hnone Hw'. apply lookup_ge_None in Hnone.
  destruct a as [header req d|apiKeyParam gameIdParam|w0|w0]; simpl in Hw'.
  - apply lookup_lt_Some in Hw'. rewrite app_sockets_length in Hw'. lia.
  - assert (Hrej : forall code, code ∈ [4000; 4001; 4002; 4003] ->
              sockets (reject code s) !! w = Some sk' -> socketOk sk').
    { intros code Hcode Hsk. simpl in Hsk.
      rewrite lookup_app_r in Hsk; [|done].
      destruct (w - length (sockets s)) as [|n]; simpl in Hsk; [|done].
      injection Hsk as <-. unfold socketOk. simpl.
      split; [done|]. split; [unfold CLOSING, OPEN; lia|]. by exists code. }
    unfold onConnection in Hw'.
    destruct (negb (present apiKeyParam) || negb (present gameIdParam));
      [apply (Hrej 4000); [set_solver | done]|].
    destruct (getUserByApiKey _ _) as [user|]; [|apply (Hrej 4001); [set_solver | done]].
    destruct (getGameById _ _) as [game|]; [|apply (Hrej 4002); [set_solver | done]].
    destruct (negb _ && negb _); [apply (Hrej 4003); [set_solver | done]|].
    simpl in Hw'. rewrite lookup_app_r in Hw'; [|done].
    destruct (w - length (sockets s)) as [|n]; simpl in Hw'; [|done].
    injection Hw' as <-. unfold socketOk. simpl. split; [done|]. by eexists.
  - apply lookup_lt_Some in Hw'. unfold startClosing in Hw'.
    destruct (isOpen (sockets s) w0); simpl in Hw'; [rewrite length_alter in Hw'|]; lia.
  - apply lookup_lt_Some in Hw'. unfold onCloseEvent in Hw'.
    destruct (sockets s !! w0) as [sk0|]; [|lia].
    destruct (onClose sk0) as [[gameId user]|]; simpl in Hw';
      rewrite ?broadcast_length, length_insert in Hw'; lia.
Qed.

(** X20. The frames sent on a socket are never taken back: after any step
    the frames sent on a socket start with the frames sent before.  And in
    every reachable state every socket is as the connection handler left it:
    a refused socket carries its close code, is not open and was sent
    nothing; an admitted socket was not closed by the handler and the first
    frame sent on it is the connected event for its game and user. *)
Theorem socket_log_is_kept (s : State) :
  (forall a w, sentOn s w `prefix_of` sentOn (next s a) w)
  /\ (reachable s -> Forall socketOk (sockets s)).
Proof.
  split.
  - intros a w. unfold sentOn. destruct (sockets s !! w) as [sk|] eqn:Hw.
    + destruct (next_socket s a w sk Hw) as (sk' & -> & _ & _ & Hpre & _). done.
    + apply prefix_nil.
  - induction 1 as [|s a Hs IH Hadm]; [apply Forall_nil_2|].
    apply Forall_lookup. intros w sk' Hw'.
    destruct (sockets s !! w) as [sk|] eqn:Hw; [|by eapply next_new_socket].
    rewrite Forall_lookup in IH. specialize (IH w sk Hw).
    destruct (next_socket s a w sk Hw) as (sk1 & Hsk1 & Hon & Hcc & Hpre & Hrs).
    rewrite Hw' in Hsk1. injection Hsk1 as <-.
    unfold socketOk in *. rewrite Hon, Hcc.
    destruct (onClose sk) as [[gameId user]|].
    + destruct IH as [Hnone (nm & Hhead)]. split; [done|]. exists nm.
      destruct Hpre as [k ->]. destruct (sent sk); [done|]. done.
    + destruct IH as (Hsent & Hno & Hcode).
      destruct (next_frozen s a w sk Hw Hno) as (sk2 & Hsk2 & Hs2 & _ & _ & Hno2 & _).
      rewrite Hw' in Hsk2. injection Hsk2 as <-.
      split; [by rewrite Hs2|]. by split.
Qed.

Lemma socket_log_is_kept_witness : Forall socketOk (sockets sample).
Proof. exact (proj2 (socket_log_is_kept sample) sample_reachable). Defined.

(** X21. In every reachable state the registry lists exactly the sockets
    that were admitted and whose [close] event has not been emitted, each
    under the game it was admitted to: no connection is dropped from the
    registry while its socket lives, and none stays once it has closed. *)
Theorem registry_lists_live_sockets (s : State) :
  reachable s ->
  forall w gameId, w ∈ registeredFor s gameId <-> alive s w gameId.
Proof.
  intros Hreach w gameId. split.
  - intros Hin. pose proof (reachable_registryOk s Hreach) as Hok.
    unfold registeredFor in Hin. apply list_elem_of_fmap in Hin as (c & -> & Hc).
    destruct (gameConnections s !! gameId) as [l|] eqn:Hl; [|by apply elem_of_nil in Hc].
    destruct (Hok _ _ Hl) as [_ Hent].
    destruct (Hent c Hc) as (sk & u & Hw & Hrs & Hon & _). by exists sk, u.
  - revert w gameId. induction Hreach as [|s a Hs IH Hadm]; intros w gameId.
    { intros (sk & u & Hw & _). done. }
    intros (sk' & u & Hw' & Hon' & Hrs').
    destruct (sockets s !! w) as [sk|] eqn:Hw.
    + destruct (next_socket s a w sk Hw) as (sk1 & Hsk1 & Hon & _ & _ & Hrs).
      rewrite Hw' in Hsk1. injection Hsk1 as <-.
      assert (Hold : w ∈ registeredFor s gameId).
      { apply IH. exists sk, u. split; [done|]. split; [congruence|].
        intros Hcl. destruct Hrs as [?|[Heq|[Hop _]]]; [done| |].
        - rewrite Heq in Hrs'. done.
        - rewrite Hcl in Hop. done. }
      destruct a as [header req d|apiKeyParam gameIdParam|w0|w0]; simpl in *.
      * unfold registeredFor. by rewrite app_registry.
      * unfold onConnection, reject. repeat break_match; simpl; try done.
        unfold registeredFor in *. simpl.
        destruct (decide (default "" gameIdParam = gameId)) as [<-|Hne].
        -- rewrite lookup_insert_eq. simpl. rewrite fmap_app. apply elem_of_app. by left.
        -- by rewrite lookup_insert_ne.
      * unfold startClosing. by destruct (isOpen (sockets s) w0).
      * unfold onCloseEvent in *. destruct (sockets s !! w0) as [sk0|] eqn:Hw0; [|done].
        assert (Hne : w <> w0).
        { intros ->. destruct (onClose sk0) as [[g0 u0]|]; simpl in Hw'.
          - erewrite broadcast_lookup in Hw'.
            2: { apply list_lookup_insert_eq. by eapply lookup_lt_Some. }
            injection Hw' as <-. simpl in Hrs'. done.
          - rewrite list_lookup_insert_eq in Hw'; [|by eapply lookup_lt_Some].
            injection Hw' as <-. simpl in Hrs'. done. }
        destruct (onClose sk0) as [[g0 u0]|]; simpl; [|done].
        destruct (gameConnections s !! g0) as [l|] eqn:Hl; [|done].
        destruct (findIndex (fun c => (ws c =? w0)%nat) l) as [i|] eqn:Hi; [|done].
        unfold registeredFor in *. simpl.
        destruct (decide (g0 = gameId)) as [->|Hg]; [|by rewrite lookup_insert_ne].
        rewrite lookup_insert_eq. rewrite Hl in Hold. simpl in *.
        unfold splice1. rewrite list_fmap_delete.
        eapply elem_of_delete_other; [done | by apply findIndex_ws | done].
    + destruct a as [header req d|apiKeyParam gameIdParam|w0|w0]; simpl in *.
      * apply lookup_lt_Some in Hw'. rewrite app_sockets_length in Hw'.
        apply lookup_ge_None in Hw. lia.
      * apply lookup_ge_None in Hw. revert Hw' Hon'. unfold onConnection, reject.
        repeat break_match; simpl; intros Hw' Hon';
          (rewrite lookup_app_r in Hw'; [|done]);
          (destruct (w - length (sockets s)) as [|n] eqn:Hn; simpl in Hw'; [|done]);
          injection Hw' as <-; simpl in Hon'; try done.
        injection Hon' as <- <-. unfold registeredFor. simpl.
        rewrite lookup_insert_eq. simpl. rewrite fmap_app. apply elem_of_app. right.
        simpl. replace w with (length (sockets s)) by lia. apply list_elem_of_here.
      * apply lookup_lt_Some in Hw'. apply lookup_ge_None in Hw. unfold startClosing in Hw'.
        destruct (isOpen (sockets s) w0); simpl in Hw'; [rewrite length_alter in Hw'|]; lia.
      * apply lookup_lt_Some in Hw'. apply lookup_ge_None in Hw. unfold onCloseEvent in Hw'.
        destruct (sockets s !! w0) as [sk0|]; [|lia].
        destruct (onClose sk0) as [[g0 u0]|]; simpl in Hw';
          rewrite ?broadcast_length, length_insert in Hw'; lia.
Qed.

Lemma registry_lists_live_sockets_witness : alive sample 1 "g1".
Proof.
  apply (registry_lists_live_sockets sample sample_reachable 1 "g1").
  apply (bool_decide_unpack _). by vm_compute.
Defined.
